(** * LDAPLynx: the LDIF parser and the console commands built on it

    A shallow embedding of [src/ldaplynx.py].  Python [str] values are
    modelled as [string]: a sequence of code points below 256.  A Python
    call that can raise is modelled in the [result] monad, so that
    "no exception propagates" is a statement about the embedding and
    not an assumption of it. *)

From Stdlib Require Import Ascii.
From stdpp Require Import gmap strings list.

(** ** Python built-ins used by the program *)

Inductive exn : Type :=
  | IndexError.

Inductive result (A : Type) : Type :=
  | Ok (a : A)
  | Raise (e : exn).
Arguments Ok {A} a.
Arguments Raise {A} e.

Global Instance result_ret : MRet result := fun A a => Ok a.
Global Instance result_bind : MBind result := fun A B f m =>
  match m with
  | Ok a => f a
  | Raise e => Raise e
  end.

(** [for x in xs: body], the body threading the state [s]. *)
Fixpoint for_each {A S : Type} (body : S -> A -> result S) (s : S) (xs : list A)
  : result S :=
  match xs with
  | [] => Ok s
  | x :: xs' => s' ← body s x; for_each body s' xs'
  end.

(** [l[i]]: raises [IndexError] out of range. *)
Definition getitem {A : Type} (l : list A) (i : nat) : result A :=
  match l !! i with
  | Some x => Ok x
  | None => Raise IndexError
  end.

(** [str.isspace] on one code point below 256. *)
Definition isspace (c : ascii) : bool :=
  match c with
  | "009" | "010" | "011" | "012" | "013"
  | "028" | "029" | "030" | "031" | " " | "133" | "160" => true
  | _ => false
  end%char.

(** The line boundaries of [str.splitlines] below 256. *)
Definition is_linebreak (c : ascii) : bool :=
  match c with
  | "010" | "011" | "012" | "013" | "028" | "029" | "030" | "133" => true
  | _ => false
  end%char.

Fixpoint lstrip (s : string) : string :=
  match s with
  | EmptyString => EmptyString
  | String c s' => if isspace c then lstrip s' else s
  end.

Fixpoint rstrip (s : string) : string :=
  match s with
  | EmptyString => EmptyString
  | String c s' =>
      match rstrip s' with
      | EmptyString => if isspace c then EmptyString else String c EmptyString
      | r => String c r
      end
  end.

(** [s.strip()] *)
Definition strip (s : string) : string := rstrip (lstrip s).

(** [s.startswith(p)] *)
Fixpoint startswith (s p : string) {struct p} : bool :=
  match p, s with
  | EmptyString, _ => true
  | String _ _, EmptyString => false
  | String cp p', String cs s' => if decide (cp = cs) then startswith s' p' else false
  end.

(** [needle in hay] on strings. *)
Fixpoint str_in (needle hay : string) : bool :=
  startswith hay needle ||
  match hay with
  | EmptyString => false
  | String _ hay' => str_in needle hay'
  end.

(** The text before the first colon, and the text after it when there
    is a colon. *)
Fixpoint partition_colon (s : string) : string * option string :=
  match s with
  | EmptyString => (EmptyString, None)
  | String c s' =>
      if decide (c = ":"%char) then (EmptyString, Some s')
      else let '(a, b) := partition_colon s' in (String c a, b)
  end.

(** [s.split(":", 1)] *)
Definition split_colon_1 (s : string) : list string :=
  match partition_colon s with
  | (a, None) => [a]
  | (a, Some b) => [a; b]
  end.

(** [s.splitlines()]: a line ends at a line boundary, [\r\n] counts as
    one boundary, and a trailing boundary opens no further line. *)
Fixpoint splitlines (s : string) : list string :=
  match s with
  | EmptyString => []
  | String c s' =>
      if is_linebreak c then
        match c, s' with
        | "013"%char, String "010"%char s'' => EmptyString :: splitlines s''
        | _, _ => EmptyString :: splitlines s'
        end
      else
        match splitlines s' with
        | [] => [String c EmptyString]
        | l :: ls => String c l :: ls
        end
  end.

(** [s.split(sep)] for a one-character separator: the fields between
    the separators, untrimmed; never the empty list. *)
Fixpoint split_on (sep : ascii) (s : string) : list string :=
  match s with
  | EmptyString => [EmptyString]
  | String c s' =>
      if decide (c = sep) then EmptyString :: split_on sep s'
      else match split_on sep s' with
           | [] => [String c EmptyString]
           | field :: fields => String c field :: fields
           end
  end.

(** [l[i]] for an integer that may be negative: a negative index
    counts from the end. *)
Definition getitem_int {A : Type} (l : list A) (i : Z) : result A :=
  let n := Z.of_nat (length l) in
  let j := if bool_decide (i < 0)%Z then (i + n)%Z else i in
  if bool_decide (0 ≤ j)%Z && bool_decide (j < n)%Z
  then getitem l (Z.to_nat j)
  else Raise IndexError.

(** [list(enumerate(l))] *)
Definition enumerate {A : Type} (l : list A) : list (nat * A) :=
  imap (fun idx x => (idx, x)) l.

(** [str.lower] on one code point below 256: the letters [A] to [Z]
    and the capital letters of Latin-1 move up by 32. *)
Definition lower_char (c : ascii) : ascii :=
  let n := nat_of_ascii c in
  if (bool_decide (65 ≤ n) && bool_decide (n ≤ 90)) ||
     (bool_decide (192 ≤ n) && bool_decide (n ≤ 222) && negb (bool_decide (n = 215)))
  then ascii_of_nat (n + 32)
  else c.

(** [s.lower()] *)
Fixpoint lower (s : string) : string :=
  match s with
  | EmptyString => EmptyString
  | String c s' => String (lower_char c) (lower s')
  end.

(** [s.split(sep, 1)] for a one-character separator. *)
Fixpoint partition_on (sep : ascii) (s : string) : string * option string :=
  match s with
  | EmptyString => (EmptyString, None)
  | String c s' =>
      if decide (c = sep) then (EmptyString, Some s')
      else let '(a, b) := partition_on sep s' in (String c a, b)
  end.

Definition split_on_1 (sep : ascii) (s : string) : list string :=
  match partition_on sep s with
  | (a, None) => [a]
  | (a, Some b) => [a; b]
  end.

(** The word at the start of [s], empty when [s] starts with white
    space, and the words after it. *)
Fixpoint split_whitespace_go (s : string) : string * list string :=
  match s with
  | EmptyString => (EmptyString, [])
  | String c s' =>
      let '(word, words) := split_whitespace_go s' in
      if isspace c
      then (EmptyString, match word with EmptyString => words | _ => word :: words end)
      else (String c word, words)
  end.

(** [s.split()]: the words between runs of white space. *)
Definition split_whitespace (s : string) : list string :=
  let '(word, words) := split_whitespace_go s in
  match word with
  | EmptyString => words
  | _ => word :: words
  end.

(** Truthiness of a value that is [None] or a [str]. *)
Definition truthy (v : option string) : bool :=
  match v with
  | None => false
  | Some EmptyString => false
  | Some _ => true
  end.

(** ** [parse_ldif] *)

(** A node is the tuple [(current_dn, label, current_type)]; an edge is
    the tuple [(member_dn, current_dn, "memberOf")].  [current_dn] is
    [None] until the first [dn:] line. *)
Definition node : Type := option string * string * string.
Definition edge : Type := string * option string * string.

(** The local variables of [parse_ldif]. *)
Record locals : Type := Locals {
  uid_to_dn : gmap string string;
  edges : list edge;
  nodes : gset node;
  current_dn : option string;
  current_type : option string
}.

Definition parse_ldif_init : locals :=
  Locals ∅ [] ∅ None None.

(** The body of [for attr in membership_attributes] for one [attr].
    [if member_dn:] passes a value that is neither [None] nor empty. *)
Definition membership_body (line : string) (st : locals) (attr : string)
  : result locals :=
  if startswith line (attr +:+ ":") then
    after ← getitem (split_colon_1 line) 1;
    let member_value := strip after in
    let member_dn :=
      if decide (attr = "memberUid") then uid_to_dn st !! member_value
      else Some member_value in
    match member_dn with
    | Some d =>
        if truthy member_dn then
          Ok (Locals (uid_to_dn st) (edges st ++ [(d, current_dn st, "memberOf")])
                (nodes st) (current_dn st) (current_type st))
        else Ok st
    | None => Ok st
    end
  else Ok st.

(** The body of [for line in ldif_content.splitlines()].  The tuple
    added to [nodes] holds [current_type], which the guard of its branch
    has just compared equal to ["User"] (or ["Group"]). *)
Definition line_body (membership_attributes : list string) (st : locals)
  (raw : string) : result locals :=
  let line := strip raw in
  if startswith line "dn:" then
    after ← getitem (split_colon_1 line) 1;
    Ok (Locals (uid_to_dn st) (edges st) (nodes st) (Some (strip after)) None)
  else if startswith line "objectClass:" then
    if str_in "inetOrgPerson" line || str_in "posixAccount" line then
      Ok (Locals (uid_to_dn st) (edges st) (nodes st) (current_dn st) (Some "User"))
    else if str_in "groupOfNames" line || str_in "posixGroup" line
            || str_in "groupOfMembers" line then
      Ok (Locals (uid_to_dn st) (edges st) (nodes st) (current_dn st) (Some "Group"))
    else Ok st
  else if startswith line "uid:" && bool_decide (current_type st = Some "User") then
    after ← getitem (split_colon_1 line) 1;
    let uid := strip after in
    Ok (Locals (uid_to_dn st) (edges st)
          ({[ (current_dn st, uid, "User") ]} ∪ nodes st)
          (current_dn st) (current_type st))
  else if startswith line "cn:" && bool_decide (current_type st = Some "Group") then
    after ← getitem (split_colon_1 line) 1;
    let cn := strip after in
    Ok (Locals (uid_to_dn st) (edges st)
          ({[ (current_dn st, cn, "Group") ]} ∪ nodes st)
          (current_dn st) (current_type st))
  else
    for_each (membership_body line) st membership_attributes.

(** The loop of [parse_ldif] over a list of lines, from given locals. *)
Definition parse_lines (membership_attributes : list string) (st : locals)
  (lines : list string) : result locals :=
  for_each (line_body membership_attributes) st lines.

(** [parse_ldif(ldif_content, membership_attributes)]; [list(nodes)]
    enumerates the set in an order the program does not fix. *)
Definition parse_ldif (ldif_content : string) (membership_attributes : list string)
  : result (list node * list edge) :=
  st ← parse_lines membership_attributes parse_ldif_init (splitlines ldif_content);
  Ok (elements (nodes st), edges st).

(** The line feed, and a document written as its lines, each closed by
    a line feed. *)
Definition newline : string := String "010"%char EmptyString.

Definition unlines (ls : list string) : string :=
  foldr (fun l rest => l +:+ newline +:+ rest) "" ls.

(** ** The console object: [detect_membership_attributes], [parse], [export] *)

Module LDIFConsole.

(** The attributes of the object that the three methods read or
    write.  [nodes] and [edges] hold the last parse result. *)
Record console : Type := Console {
  ldif_content : option string;
  membership_attributes : list string;
  nodes : list node;
  edges : list edge
}.

(** [__init__] *)
Definition init : console :=
  Console None ["member"; "memberUid"] [] [].

(** What a method prints before it returns. *)
Inductive message : Type :=
  | NoLdifLoaded
  | Parsed (n_nodes n_edges : nat)
  | NoParsedData
  | FilesSaved (nodes_file edges_file : string).

(** The exceptions that the console meets.  [OtherException] is an
    exception of any other class, given by the name of the class: the
    [IsADirectoryError], [PermissionError] or [UnicodeDecodeError] of a
    file access, for example.  All of them are caught by
    [except Exception]. *)
Inductive exception : Type :=
  | Builtin (e : exn)
  | AttributeError
  | FileNotFoundError
  | EOFError
  | UnboundLocalError
  | OtherException (name : string).

Definition common_attributes : list string :=
  ["member"; "memberUid"; "uniqueMember"; "isMemberOf"; "memberOf"].

(** The body of the loop of [detect_membership_attributes]. *)
Definition detect_body (detected_attributes : gset string) (raw : string)
  : result (gset string) :=
  let line := strip raw in
  if str_in ":" line then
    attribute ← getitem (split_colon_1 line) 0;
    if bool_decide (attribute ∈ common_attributes)
    then Ok ({[ attribute ]} ∪ detected_attributes)
    else Ok detected_attributes
  else Ok detected_attributes.

Definition detect_membership_attributes (self : console) : result (list string) :=
  if negb (truthy (ldif_content self)) then Ok []
  else
    detected_attributes ←
      for_each detect_body ∅ (splitlines (default "" (ldif_content self)));
    Ok (elements detected_attributes).

Definition parse (self : console) : result (console * message) :=
  if negb (truthy (ldif_content self)) then Ok (self, NoLdifLoaded)
  else
    r ← parse_ldif (default "" (ldif_content self)) (membership_attributes self);
    Ok (Console (ldif_content self) (membership_attributes self) r.1 r.2,
        Parsed (length r.1) (length r.2)).

(** [f"{v}"] for a value that is [None] or a [str]. *)
Definition format (v : option string) : string := default "None" v.

Definition dquote : string := String "034"%char EmptyString.

Definition node_row (n : node) : string :=
  dquote +:+ format n.1.1 +:+ dquote +:+ "," +:+
  dquote +:+ n.1.2 +:+ dquote +:+ "," +:+
  dquote +:+ n.2 +:+ dquote +:+ newline.

Definition edge_row (e : edge) : string :=
  dquote +:+ e.1.1 +:+ dquote +:+ "," +:+
  dquote +:+ format e.1.2 +:+ dquote +:+ "," +:+
  dquote +:+ e.2 +:+ dquote +:+ newline.

(** Everything written to a file opened with mode ["w"]. *)
Definition nodes_table (ns : list node) : string :=
  fold_left (fun written n => written +:+ node_row n) ns ("Id,Label,Type" +:+ newline).

Definition edges_table (es : list edge) : string :=
  fold_left (fun written e => written +:+ edge_row e) es
    ("Source,Target,Relation" +:+ newline).

(** What happens on a path that cannot be written: [open(path, "w")]
    raises and the file is left as it is, or [open] succeeds and a
    write, or the close at the end of the [with] block, raises, and the
    file then holds [remains]. *)
Inductive write_failure : Type :=
  | OpenFails (e : exception)
  | WriteFails (e : exception) (remains : string).

Definition failure_of (f : write_failure) : exception :=
  match f with
  | OpenFails e => e
  | WriteFails e _ => e
  end.

(** [with open(path, "w") as f:] and the writes of its block, of
    [written] in all.  The file system is a map from paths to contents;
    [unwritable] gives the failure for each path that cannot be
    written, and every other path is created or replaced and holds a
    text that can be read afterwards.  The result is the file system
    afterwards and the exception raised, if any. *)
Definition write_file (unwritable : gmap string write_failure) (path written : string)
  (files : gmap string string) : gmap string string * option exception :=
  match unwritable !! path with
  | None => (<[ path := written ]> files, None)
  | Some (OpenFails e) => (files, Some e)
  | Some (WriteFails e remains) => (<[ path := remains ]> files, Some e)
  end.

(** [export]: nothing in it catches an exception, so the one that a
    file access raises leaves the method, after the first file has been
    written when it is the second access that fails. *)
Definition export (self : console) (nodes_file edges_file : string)
  (unwritable : gmap string write_failure) (files : gmap string string)
  : gmap string string * (exception + message) :=
  if bool_decide (nodes self = []) || bool_decide (edges self = []) then
    (files, inr NoParsedData)
  else
    let '(files, raised) :=
      write_file unwritable nodes_file (nodes_table (nodes self)) files in
    match raised with
    | Some e => (files, inl e)
    | None =>
        let '(files, raised) :=
          write_file unwritable edges_file (edges_table (edges self)) files in
        match raised with
        | Some e => (files, inl e)
        | None => (files, inr (FilesSaved nodes_file edges_file))
        end
    end.

(** One element of the list that [get_group_entries] returns: the
    dict with the keys ["dn"] and ["members"]. *)
Record group_entry : Type := GroupEntry {
  dn : option string;
  members : list string
}.

(** The body of the loop of [get_group_entries], on the local
    variables [(group_entries, current_entry, current_dn, members,
    inside_group)]. *)
Definition get_group_entries_body (membership_attributes : list string)
  (st : list group_entry * list string * option string * list string * bool)
  (raw : string)
  : result (list group_entry * list string * option string * list string * bool) :=
  let '(group_entries, current_entry, current_dn, members, inside_group) := st in
  let line := strip raw in
  if startswith line "dn:" then
    let group_entries :=
      if inside_group then group_entries ++ [GroupEntry current_dn members]
      else group_entries in
    let current_entry := [line] in
    after ← getitem (split_colon_1 line) 1;
    Ok (group_entries, current_entry ++ [line], Some (strip after), [], false)
  else if existsb (fun attr => startswith line (attr +:+ ":")) membership_attributes then
    after ← getitem (split_colon_1 line) 1;
    Ok (group_entries, current_entry ++ [line], current_dn,
        members ++ [strip after], true)
  else Ok (group_entries, current_entry ++ [line], current_dn, members, inside_group).

(** [get_group_entries] on the document text; the method reads it from
    [self.ldif_content]. *)
Definition get_group_entries_of (content : string) (membership_attributes : list string)
  : result (list group_entry) :=
  '(group_entries, current_entry, current_dn, members, inside_group) ←
    for_each (get_group_entries_body membership_attributes)
      ([], [], None, [], false) (splitlines content);
  Ok (if (inside_group : bool) then group_entries ++ [GroupEntry current_dn members]
      else group_entries).

(** What [view_group] prints. *)
Inductive view_group_output : Type :=
  | ViewNoLdifLoaded
  | GroupDetails (group_dn : string) (current_entry : list string)
  | GroupNotFound (group_dn : string).

(** [current_entry and current_entry[0].split(":", 1)[1].strip() == group_dn] *)
Definition entry_matches (current_entry : list string) (group_dn : string)
  : result bool :=
  match current_entry with
  | [] => Ok false
  | _ :: _ =>
      first ← getitem current_entry 0;
      after ← getitem (split_colon_1 first) 1;
      Ok (bool_decide (strip after = group_dn))
  end.

(** The loop of [view_group]; it returns [(group_found, current_entry)]
    as they are when the loop is left, by [break] or at the last line. *)
Fixpoint view_group_loop (group_dn : string) (current_entry lines : list string)
  : result (bool * list string) :=
  match lines with
  | [] => Ok (false, current_entry)
  | raw :: rest =>
      let line := strip raw in
      if startswith line "dn:" then
        found ← entry_matches current_entry group_dn;
        if (found : bool) then Ok (true, current_entry)
        else view_group_loop group_dn [line] rest
      else view_group_loop group_dn (current_entry ++ [line]) rest
  end.

Definition view_group (self : console) (group_dn : string)
  : result view_group_output :=
  if negb (truthy (ldif_content self)) then Ok ViewNoLdifLoaded
  else
    r ← view_group_loop group_dn [] (splitlines (default "" (ldif_content self)));
    found ← entry_matches r.2 group_dn;
    let group_found := if (found : bool) then true else r.1 in
    Ok (if group_found then GroupDetails group_dn r.2 else GroupNotFound group_dn).

(** What [set_membership_attributes] prints. *)
Inductive set_attrs_output : Type :=
  | SetAttrsUsage
  | AttrsSet (attributes : list string).

(** [attributes] is the rest of the command line, or [None]. *)
Definition set_membership_attributes (self : console) (attributes : option string)
  : console * set_attrs_output :=
  if negb (truthy attributes) then (self, SetAttrsUsage)
  else
    let fields := split_on ","%char (default "" attributes) in
    (Console (ldif_content self) fields (nodes self) (edges self), AttrsSet fields).

(** [get_group_entries]: the method reads the text from the console;
    on [None] the call of [splitlines] raises. *)
Definition get_group_entries (self : console) (membership_attributes : list string)
  : exception + list group_entry :=
  match ldif_content self with
  | None => inl AttributeError
  | Some content =>
      match get_group_entries_of content membership_attributes with
      | Ok group_entries => inr group_entries
      | Raise e => inl (Builtin e)
      end
  end.

(** What [load_ldif] prints, one constructor for each [print]. *)
Inductive load_message : Type :=
  | LoadUsage
  | LoadExample
  | Loaded (file_path : string)
  | FoundGroups (n : nat)
  | ExampleGroup
  | GroupName (group_name : option string)
  | MembersCount (n : nat)
  | MemberExample (attr_display member : string)
  | Detected (detected_attributes : list string)
  | AskUse
  | NoneDetected
  | AskEnter
  | Using (membership_attributes : list string)
  | Ready
  | FileDoesNotExist (file_path : string)
  | ErrorOccurred (e : exception).

(** The body of [for idx, member in enumerate(member_lines)]; the state
    is what has been printed.  The index can only be out of range for
    an empty attribute list, and then in the first pass. *)
Definition member_example_body (membership_attributes : list string)
  (printed : list load_message) (item : nat * string) : result (list load_message) :=
  let '(idx, member) := item in
  if bool_decide (idx = 0) || bool_decide (idx < length membership_attributes) then
    attr_display ←
      getitem_int membership_attributes
        (Z.min (Z.of_nat idx) (Z.of_nat (length membership_attributes) - 1));
    Ok (printed ++ [MemberExample attr_display member])
  else Ok printed.

(** The end of the [try] of [load_ldif]: the attributes are chosen. *)
Definition load_ldif_ready (self : console) (membership_attributes : list string)
  (printed : list load_message) (inputs : list string)
  : console * list load_message * list string :=
  (Console (ldif_content self) membership_attributes (nodes self) (edges self),
   printed ++ [Using membership_attributes; Ready], inputs).

(** [print(prompt); user_input = input("> ").strip();
    self.membership_attributes = user_input.split(",")] and the end of
    the [try]; [input] raises [EOFError] when no input is left. *)
Definition load_ldif_enter (self : console) (printed : list load_message)
  (inputs : list string) : console * list load_message * list string :=
  match inputs with
  | [] => (self, printed ++ [AskEnter; ErrorOccurred EOFError], [])
  | user_input :: inputs' =>
      load_ldif_ready self (split_on ","%char (strip user_input))
        (printed ++ [AskEnter]) inputs'
  end.

(** [with open(file_path, 'r') as file: file.read()].  [files] gives
    for each path that can be opened and read the text that
    [file.read()] returns; for any other path [unreadable] gives the
    exception that [open] or [read] raises, which is
    [FileNotFoundError] where it gives none. *)
Definition read_file (files : gmap string string) (unreadable : gmap string exception)
  (path : string) : exception + string :=
  match files !! path with
  | Some content => inr content
  | None => inl (default FileNotFoundError (unreadable !! path))
  end.

(** [load_ldif(file_path)].  [inputs] are the lines that [input]
    returns, in order.  The result is the console, what was printed,
    and the inputs left.  An exception of the file access is raised
    before [self.ldif_content] is assigned; [except FileNotFoundError]
    comes before [except Exception]. *)
Definition load_ldif (self : console) (file_path : option string)
  (files : gmap string string) (unreadable : gmap string exception)
  (inputs : list string)
  : console * list load_message * list string :=
  if negb (truthy file_path) then (self, [LoadUsage; LoadExample], inputs)
  else
    let path := default "" file_path in
    match read_file files unreadable path with
    | inl FileNotFoundError => (self, [FileDoesNotExist path], inputs)
    | inl e => (self, [ErrorOccurred e], inputs)
    | inr content =>
        let self := Console (Some content) (membership_attributes self)
                      (nodes self) (edges self) in
        let printed := [Loaded path] in
        match detect_membership_attributes self with
        | Raise e => (self, printed ++ [ErrorOccurred (Builtin e)], inputs)
        | Ok [] => load_ldif_enter self (printed ++ [NoneDetected]) inputs
        | Ok detected_attributes =>
            match get_group_entries self detected_attributes with
            | inl e => (self, printed ++ [ErrorOccurred e], inputs)
            | inr group_entries =>
                let printed := printed ++ [FoundGroups (length group_entries)] in
                let member_lines :=
                  match group_entries with
                  | [] => None
                  | group :: _ => Some (members group)
                  end in
                let printed :=
                  match group_entries with
                  | [] => printed
                  | group :: _ =>
                      printed ++ [ExampleGroup; GroupName (dn group);
                                  MembersCount (length (members group))]
                  end in
                match member_lines with
                | None => (self, printed ++ [ErrorOccurred UnboundLocalError], inputs)
                | Some member_lines =>
                    match for_each (member_example_body (membership_attributes self))
                            printed (enumerate member_lines) with
                    | Raise e => (self, printed ++ [ErrorOccurred (Builtin e)], inputs)
                    | Ok printed =>
                        let printed := printed ++ [Detected detected_attributes; AskUse] in
                        match inputs with
                        | [] => (self, printed ++ [ErrorOccurred EOFError], [])
                        | answer :: inputs =>
                            let choice := lower (strip answer) in
                            if bool_decide (choice = "y")
                            then load_ldif_ready self detected_attributes printed inputs
                            else load_ldif_enter self printed inputs
                        end
                    end
                end
            end
        end
    end.

(** What the commands of [run] print.  [view_nodes] and [view_edges]
    print a heading and one line for each element of the list. *)
Inductive output : Type :=
  | Banner
  | Help
  | LoadPrinted (m : load_message)
  | SetAttrsPrinted (o : set_attrs_output)
  | Printed (m : message)
  | NoNodesAvailable
  | NodesListed (ns : list node)
  | NoEdgesAvailable
  | EdgesListed (es : list edge)
  | ViewGroupPrinted (o : view_group_output)
  | ViewGroupUsage
  | ExportUsage
  | Exiting
  | UnknownCommand (cmd : string).

Definition view_nodes (self : console) : output :=
  if bool_decide (nodes self = []) then NoNodesAvailable else NodesListed (nodes self).

Definition view_edges (self : console) : output :=
  if bool_decide (edges self = []) then NoEdgesAvailable else EdgesListed (edges self).

(** The console, the files, the inputs not yet read and what has been
    printed. *)
Record world : Type := World {
  console_of : console;
  files_of : gmap string string;
  inputs_of : list string;
  printed_of : list output
}.

(** How one pass through the body of [while True] ends: at the end of
    the body or at [continue], at [break], or with an exception that
    nothing in [run] catches. *)
Inductive pass : Type :=
  | Continue (w : world)
  | Break (w : world)
  | Uncaught (e : exception) (w : world).

(** The body of [while True] in [run].  Nothing in [run] catches an
    exception: the one that leaves [parse], [view_group] or [export]
    ends the pass. *)
Definition run_body (unreadable : gmap string exception)
  (unwritable : gmap string write_failure) (w : world) : pass :=
  let self := console_of w in
  match inputs_of w with
  | [] => Uncaught EOFError w
  | typed :: inputs =>
      let command := strip typed in
      if negb (truthy (Some command))
      then Continue (World self (files_of w) inputs (printed_of w))
      else
        let cmd_parts := split_on_1 " "%char command in
        let cmd := default EmptyString (cmd_parts !! 0) in
        let args := if bool_decide (1 < length cmd_parts) then cmd_parts !! 1 else None in
        if bool_decide (cmd = "help") then
          Continue (World self (files_of w) inputs (printed_of w ++ [Help]))
        else if bool_decide (cmd = "load") then
          let '(self', printed, inputs') :=
            load_ldif self args (files_of w) unreadable inputs in
          Continue (World self' (files_of w) inputs'
                      (printed_of w ++ map LoadPrinted printed))
        else if bool_decide (cmd = "set_attrs") then
          let '(self', o) := set_membership_attributes self args in
          Continue (World self' (files_of w) inputs (printed_of w ++ [SetAttrsPrinted o]))
        else if bool_decide (cmd = "parse") then
          match parse self with
          | Ok (self', m) =>
              Continue (World self' (files_of w) inputs (printed_of w ++ [Printed m]))
          | Raise e => Uncaught (Builtin e) (World self (files_of w) inputs (printed_of w))
          end
        else if bool_decide (cmd = "view_nodes") then
          Continue (World self (files_of w) inputs (printed_of w ++ [view_nodes self]))
        else if bool_decide (cmd = "view_edges") then
          Continue (World self (files_of w) inputs (printed_of w ++ [view_edges self]))
        else if bool_decide (cmd = "view_group") then
          if truthy args then
            match view_group self (default EmptyString args) with
            | Ok o =>
                Continue (World self (files_of w) inputs
                            (printed_of w ++ [ViewGroupPrinted o]))
            | Raise e =>
                Uncaught (Builtin e) (World self (files_of w) inputs (printed_of w))
            end
          else Continue (World self (files_of w) inputs (printed_of w ++ [ViewGroupUsage]))
        else if bool_decide (cmd = "export") then
          if truthy args then
            match split_whitespace (default EmptyString args) with
            | [nodes_file; edges_file] =>
                let '(files', r) :=
                  export self nodes_file edges_file unwritable (files_of w) in
                match r with
                | inr m => Continue (World self files' inputs (printed_of w ++ [Printed m]))
                | inl e => Uncaught e (World self files' inputs (printed_of w))
                end
            | _ => Continue (World self (files_of w) inputs (printed_of w ++ [ExportUsage]))
            end
          else
            let '(files', r) :=
              export self "nodes.csv" "edges.csv" unwritable (files_of w) in
            match r with
            | inr m => Continue (World self files' inputs (printed_of w ++ [Printed m]))
            | inl e => Uncaught e (World self files' inputs (printed_of w))
            end
        else if bool_decide (cmd = "exit") then
          Break (World self (files_of w) inputs (printed_of w ++ [Exiting]))
        else
          Continue (World self (files_of w) inputs (printed_of w ++ [UnknownCommand cmd]))
  end.

(** [while True] for at most [passes] passes; [None] when more are
    needed. *)
Fixpoint run_loop (unreadable : gmap string exception)
  (unwritable : gmap string write_failure) (passes : nat) (w : world) : option pass :=
  match passes with
  | 0 => None
  | S passes' =>
      match run_body unreadable unwritable w with
      | Continue w' => run_loop unreadable unwritable passes' w'
      | ended => Some ended
      end
  end.

(** [run]: the banner, then the loop.  Every pass reads an input, so
    one pass more than there are inputs is enough. *)
Definition run (self : console) (files : gmap string string)
  (unreadable : gmap string exception) (unwritable : gmap string write_failure)
  (inputs : list string) : option pass :=
  run_loop unreadable unwritable (S (length inputs)) (World self files inputs [Banner]).

End LDIFConsole.

(** ** The entry context of a line, read off the lines above it

    These definitions follow the specification's wording: they look
    upwards from a line for the [dn:] line that opened its entry and
    for the most recent [objectClass] line that assigns a type, and
    are compared below with what the forward loop has in
    [current_dn] and [current_type] when it reaches the line. *)

(** The type an [objectClass] line assigns, if it assigns one. *)
Definition assigned_type (raw : string) : option string :=
  let line := strip raw in
  if startswith line "objectClass:" then
    if str_in "inetOrgPerson" line || str_in "posixAccount" line then Some "User"
    else if str_in "groupOfNames" line || str_in "posixGroup" line
            || str_in "groupOfMembers" line then Some "Group"
    else None
  else None.

(** [above] lists the lines above, the nearest first. *)
Fixpoint type_above (above : list string) : option string :=
  match above with
  | [] => None
  | raw :: further =>
      if startswith (strip raw) "dn:" then None
      else match assigned_type raw with
           | Some t => Some t
           | None => type_above further
           end
  end.

Fixpoint dn_above (above : list string) : option string :=
  match above with
  | [] => None
  | raw :: further =>
      if startswith (strip raw) "dn:"
      then Some (strip (default "" (partition_colon (strip raw)).2))
      else dn_above further
  end.

Definition governing_type (pre : list string) : option string :=
  type_above (rev pre).

Definition governing_dn (pre : list string) : option string :=
  dn_above (rev pre).

(** [s] has no colon. *)
Fixpoint colon_free (s : string) : bool :=
  match s with
  | EmptyString => true
  | String c s' => if decide (c = ":"%char) then false else colon_free s'
  end.

(** The node that the line [raw] adds when the loop reaches it with
    [current_dn = d] and [current_type = t]. *)
Definition adds_node (d t : option string) (raw : string) (n : node) : Prop :=
  (∃ v, strip raw = "uid:" +:+ v ∧ t = Some "User" ∧ n = (d, strip v, "User")) ∨
  (∃ v, strip raw = "cn:" +:+ v ∧ t = Some "Group" ∧ n = (d, strip v, "Group")).

(** The line is left to the membership loop: none of the four earlier
    branches of [line_body] takes it. *)
Definition reaches_membership (t : option string) (raw : string) : bool :=
  negb (startswith (strip raw) "dn:") &&
  negb (startswith (strip raw) "objectClass:") &&
  negb (startswith (strip raw) "uid:" && bool_decide (t = Some "User")) &&
  negb (startswith (strip raw) "cn:" && bool_decide (t = Some "Group")).

(** [line] contains the class name [class]. *)
Definition names (line class : string) : Prop :=
  ∃ a b, line = a +:+ class +:+ b.

(** ** The effect of one line, as functions of the context

    Proof devices: what [line_body] does to each local variable,
    written as a function of the variables it reads.  Lemma
    [line_body_effect] shows that [line_body] returns, never raises,
    and changes the locals in exactly this way. *)

Definition line_value (line : string) : string :=
  strip (default "" (partition_colon line).2).

Definition member_edge (u : gmap string string) (d : option string)
  (line : string) (attr : string) : list edge :=
  if startswith line (attr +:+ ":") then
    let member_dn :=
      if decide (attr = "memberUid") then u !! line_value line
      else Some (line_value line) in
    match member_dn with
    | Some x => if truthy member_dn then [(x, d, "memberOf")] else []
    | None => []
    end
  else [].

Definition member_edges (u : gmap string string) (d : option string)
  (line : string) (attrs : list string) : list edge :=
  flat_map (member_edge u d line) attrs.

Definition next_dn (d : option string) (raw : string) : option string :=
  if startswith (strip raw) "dn:" then Some (line_value (strip raw)) else d.

Definition next_type (t : option string) (raw : string) : option string :=
  if startswith (strip raw) "dn:" then None
  else match assigned_type raw with
       | Some ty => Some ty
       | None => t
       end.

Definition line_nodes (d t : option string) (raw : string) : gset node :=
  let line := strip raw in
  if startswith line "dn:" then ∅
  else if startswith line "objectClass:" then ∅
  else if startswith line "uid:" && bool_decide (t = Some "User")
  then {[ (d, line_value line, "User") ]}
  else if startswith line "cn:" && bool_decide (t = Some "Group")
  then {[ (d, line_value line, "Group") ]}
  else ∅.

Definition line_edges (attrs : list string) (u : gmap string string)
  (d t : option string) (raw : string) : list edge :=
  if reaches_membership t raw then member_edges u d (strip raw) attrs else [].

(** The edges of the lines [lines], each line taken in the context of
    the lines above it ([above], the nearest first), concatenated in
    document order; within a line, in the order of the configured
    attributes. *)
Fixpoint edges_in_order (attrs above lines : list string) : list edge :=
  match lines with
  | [] => []
  | raw :: rest =>
      line_edges attrs ∅ (dn_above above) (type_above above) raw ++
      edges_in_order attrs (raw :: above) rest
  end.

(** ** A sample document

    A POSIX account and a POSIX group that lists it by [memberUid]. *)
Definition posix_group_document : string :=
  unlines [ "dn: uid=alice,ou=people,dc=x"; "objectClass: posixAccount";
            "uid: alice"; "";
            "dn: cn=staff,ou=groups,dc=x"; "objectClass: posixGroup";
            "cn: staff"; "memberUid: alice" ].

(** ** Notions for the further properties

    Predicates and proof devices for the properties of the other
    methods: what a method has at the end of its loop, the rows of the
    exported tables, how a pass of [run] may end. *)

(** [a] begins with white space. *)
Definition leading_space (a : string) : bool :=
  match a with
  | EmptyString => false
  | String c _ => isspace c
  end.

(** The line is one that [get_group_entries] counts as a member line:
    not a [dn:] line, and starting with a configured name and a colon. *)
Definition is_member_line (attrs : list string) (raw : string) : bool :=
  negb (startswith (strip raw) "dn:") &&
  existsb (fun attr => startswith (strip raw) (attr +:+ ":")) attrs.

(** The list that [get_group_entries] returns when the loop ends with
    the given local variables. *)
Definition group_entries_at_end
  (st : list LDIFConsole.group_entry * list string * option string * list string * bool)
  : list LDIFConsole.group_entry :=
  let '(group_entries, _, current_dn, members, inside_group) := st in
  if (inside_group : bool)
  then group_entries ++ [LDIFConsole.GroupEntry current_dn members]
  else group_entries.

(** [view_group] from the loop on: the loop entered with
    [current_entry], then the test after the loop and the printing. *)
Definition view_group_from (group_dn : string) (current_entry lines : list string)
  : result LDIFConsole.view_group_output :=
  r ← LDIFConsole.view_group_loop group_dn current_entry lines;
  found ← LDIFConsole.entry_matches r.2 group_dn;
  let group_found := if (found : bool) then true else r.1 in
  Ok (if group_found then LDIFConsole.GroupDetails group_dn r.2
      else LDIFConsole.GroupNotFound group_dn).

(** [sep.join(fields)] *)
Fixpoint join_with (sep : string) (fields : list string) : string :=
  match fields with
  | [] => EmptyString
  | [field] => field
  | field :: rest => field +:+ sep +:+ join_with sep rest
  end.

(** [s] holds no line boundary. *)
Fixpoint linebreak_free (s : string) : bool :=
  match s with
  | EmptyString => true
  | String c s' => negb (is_linebreak c) && linebreak_free s'
  end.

(** The row of a node and of an edge, without the closing line feed. *)
Definition node_line (n : node) : string :=
  LDIFConsole.dquote +:+ LDIFConsole.format n.1.1 +:+ LDIFConsole.dquote +:+ "," +:+
  LDIFConsole.dquote +:+ n.1.2 +:+ LDIFConsole.dquote +:+ "," +:+
  LDIFConsole.dquote +:+ n.2 +:+ LDIFConsole.dquote.

Definition edge_line (e : edge) : string :=
  LDIFConsole.dquote +:+ e.1.1 +:+ LDIFConsole.dquote +:+ "," +:+
  LDIFConsole.dquote +:+ LDIFConsole.format e.1.2 +:+ LDIFConsole.dquote +:+ "," +:+
  LDIFConsole.dquote +:+ e.2 +:+ LDIFConsole.dquote.

(** The message is not the report of an exception. *)
Definition not_error (m : LDIFConsole.load_message) : Prop :=
  ∀ e, m ≠ LDIFConsole.ErrorOccurred e.

(** The exception is the one that the environment raises on a path
    that cannot be written, and the console has nodes and edges to
    export. *)
Definition export_raised (unwritable : gmap string LDIFConsole.write_failure)
  (e : LDIFConsole.exception) (self : LDIFConsole.console) : Prop :=
  LDIFConsole.nodes self ≠ [] ∧ LDIFConsole.edges self ≠ [] ∧
  ∃ path f, unwritable !! path = Some f ∧ e = LDIFConsole.failure_of f.

(** How a pass may end, from a world whose console has at least one
    attribute: a pass that continues has read an input; an exception
    escapes only at the end of the input, or as the [IndexError] of
    [view_group] on a document whose first line has no colon, or as
    the exception of a file that [export] cannot write. *)
Definition pass_ok (unwritable : gmap string LDIFConsole.write_failure)
  (w : LDIFConsole.world) (p : LDIFConsole.pass) : Prop :=
  match p with
  | LDIFConsole.Continue w' =>
      LDIFConsole.membership_attributes (LDIFConsole.console_of w') ≠ [] ∧
      length (LDIFConsole.inputs_of w') < length (LDIFConsole.inputs_of w)
  | LDIFConsole.Break w' =>
      LDIFConsole.membership_attributes (LDIFConsole.console_of w') ≠ []
  | LDIFConsole.Uncaught e w' =>
      LDIFConsole.membership_attributes (LDIFConsole.console_of w') ≠ [] ∧
      ((e = LDIFConsole.EOFError ∧ LDIFConsole.inputs_of w' = []) ∨
       (e = LDIFConsole.Builtin IndexError ∧
        ∃ content first rest,
          LDIFConsole.ldif_content (LDIFConsole.console_of w') = Some content ∧
          splitlines content = first :: rest ∧ str_in ":" (strip first) = false) ∨
       export_raised unwritable e (LDIFConsole.console_of w'))
  end.

(** The dn is null or the trimmed value of a [dn:] line among [lines]. *)
Definition dn_of_document (lines : list string) (d : option string) : Prop :=
  d = None ∨
  ∃ raw, raw ∈ lines ∧ startswith (strip raw) "dn:" = true ∧
         d = Some (line_value (strip raw)).

(** ** The built-ins meet their description *)

Lemma str_app_cons (c : ascii) (s r : string) :
  String c s +:+ r = String c (s +:+ r).
Proof. reflexivity. Qed.

Lemma str_app_nil_l (r : string) : "" +:+ r = r.
Proof. reflexivity. Qed.

Lemma str_app_assoc (p q r : string) : (p +:+ q) +:+ r = p +:+ q +:+ r.
Proof.
  induction p as [|c p IH]; [done|]. rewrite !str_app_cons. by f_equal.
Qed.

Lemma startswith_app (p r : string) : startswith (p +:+ r) p = true.
Proof.
  induction p as [|c p IH]; [done|]. rewrite str_app_cons. simpl.
  rewrite decide_True by done. exact IH.
Qed.

Lemma startswith_inv (s p : string) :
  startswith s p = true → ∃ r, s = p +:+ r.
Proof.
  revert s. induction p as [|c p IH]; intros s H; simpl in *.
  - by exists s.
  - destruct s as [|c' s]; [done|].
    destruct (decide (c = c')) as [->|]; [|done].
    destruct (IH _ H) as [r ->]. by exists r.
Qed.

Lemma startswith_iff (s p : string) :
  startswith s p = true ↔ ∃ r, s = p +:+ r.
Proof.
  split; [apply startswith_inv|]. intros [r ->]. apply startswith_app.
Qed.

Lemma startswith_trans (s p q : string) :
  startswith s (p +:+ q) = true → startswith s p = true.
Proof.
  intros [r ->]%startswith_inv. apply startswith_iff.
  exists (q +:+ r). apply str_app_assoc.
Qed.

Lemma str_app_eq_nil (a b : string) : "" = a +:+ b → a = "" ∧ b = "".
Proof.
  destruct a; [|by rewrite str_app_cons].
  rewrite str_app_nil_l. by intros <-.
Qed.

Lemma str_in_iff (needle hay : string) :
  str_in needle hay = true ↔ ∃ a b, hay = a +:+ needle +:+ b.
Proof.
  induction hay as [|c hay IH]; simpl.
  - rewrite orb_false_r. split.
    + intros [r Hr]%startswith_inv. by exists "", r.
    + intros (a & b & Hb).
      apply str_app_eq_nil in Hb as [-> [-> ->]%eq_sym%str_app_eq_nil].
      done.
  - rewrite orb_true_iff, IH. split.
    + intros [[r Hr]%startswith_inv|(a & b & ->)].
      * by exists "", r.
      * by exists (String c a), b.
    + intros ([|c' a] & b & Hb).
      * left. rewrite str_app_nil_l in Hb. rewrite Hb. apply startswith_app.
      * right. rewrite str_app_cons in Hb. injection Hb as -> ->. by exists a, b.
Qed.

Lemma partition_colon_app (a v : string) :
  colon_free a = true → partition_colon (a +:+ ":" +:+ v) = (a, Some v).
Proof.
  induction a as [|c a IH]; [done|]. rewrite str_app_cons. simpl.
  destruct (decide (c = ":"%char)); [done|]. intros H. by rewrite (IH H).
Qed.

Lemma partition_colon_some (s : string) :
  str_in ":" s = true ↔ is_Some (partition_colon s).2.
Proof.
  induction s as [|c s IH]; simpl.
  - split; [done|]. by intros [? ?].
  - destruct (decide (":"%char = c)) as [<-|Hne].
    + rewrite decide_True by done. simpl. split; eauto.
    + rewrite decide_False by done. simpl.
      destruct (partition_colon s) as [a b]. simpl in *.
      rewrite <- IH. destruct s; simpl; done.
Qed.

Lemma partition_colon_fst (s : string) :
  colon_free (partition_colon s).1 = true ∧
  (∀ v, (partition_colon s).2 = Some v → s = (partition_colon s).1 +:+ ":" +:+ v) ∧
  ((partition_colon s).2 = None → s = (partition_colon s).1).
Proof.
  induction s as [|c s (IH1 & IH2 & IH3)]; simpl; [done|].
  destruct (decide (c = ":"%char)) as [->|Hne]; simpl.
  - split_and!; [done| |done]. by intros v [= ->].
  - destruct (partition_colon s) as [a b]. simpl in *.
    rewrite decide_False by done. split_and!; [done| |].
    + intros v Hv. rewrite str_app_cons. f_equal. by apply IH2.
    + intros Hb. f_equal. by apply IH3.
Qed.

Lemma getitem_1_startswith (line p : string) :
  startswith line (p +:+ ":") = true →
  ∃ v, getitem (split_colon_1 line) 1 = Ok v ∧ (partition_colon line).2 = Some v.
Proof.
  intros H. assert (is_Some (partition_colon line).2) as [v Hv].
  { apply partition_colon_some, str_in_iff.
    apply startswith_inv in H as [r ->]. exists p, r.
    apply str_app_assoc. }
  exists v. split; [|done]. unfold split_colon_1.
  destruct (partition_colon line) as [a b]. simpl in Hv. by subst.
Qed.

Lemma for_each_app {A S : Type} (body : S → A → result S) (s : S) (xs ys : list A) :
  for_each body s (xs ++ ys) = s' ← for_each body s xs; for_each body s' ys.
Proof.
  revert s. induction xs as [|x xs IH]; intros s; simpl; [done|].
  destruct (body s x) as [s1|e]; simpl; [apply IH|done].
Qed.

Lemma for_each_cons {A S : Type} (body : S → A → result S) (s : S) (x : A)
  (xs : list A) :
  for_each body s (x :: xs) = s' ← body s x; for_each body s' xs.
Proof. reflexivity. Qed.

Lemma bind_Ok {A B : Type} (a : A) (f : A → result B) : Ok a ≫= f = f a.
Proof. reflexivity. Qed.

Lemma membership_body_effect (line attr : string) (st : locals) :
  membership_body line st attr =
  Ok (Locals (uid_to_dn st)
        (edges st ++ member_edge (uid_to_dn st) (current_dn st) line attr)
        (nodes st) (current_dn st) (current_type st)).
Proof.
  unfold membership_body, member_edge, line_value.
  destruct (startswith line (attr +:+ ":")) eqn:Hp.
  - destruct (getitem_1_startswith _ _ Hp) as (v & -> & ->). simpl.
    destruct (if decide (attr = "memberUid") then _ else _) as [x|].
    + destruct (truthy (Some x)); [done|]. rewrite app_nil_r. by destruct st.
    + rewrite app_nil_r. by destruct st.
  - rewrite app_nil_r. by destruct st.
Qed.

Lemma membership_loop (line : string) (attrs : list string) (st : locals) :
  for_each (membership_body line) st attrs =
  Ok (Locals (uid_to_dn st)
        (edges st ++ member_edges (uid_to_dn st) (current_dn st) line attrs)
        (nodes st) (current_dn st) (current_type st)).
Proof.
  revert st. induction attrs as [|attr attrs IH]; intros st.
  - simpl. rewrite app_nil_r. by destruct st.
  - rewrite for_each_cons, membership_body_effect, bind_Ok, IH. simpl.
    by rewrite <- app_assoc.
Qed.

Lemma line_body_effect (attrs : list string) (st : locals) (raw : string) :
  line_body attrs st raw =
  Ok (Locals (uid_to_dn st)
        (edges st ++ line_edges attrs (uid_to_dn st) (current_dn st) (current_type st) raw)
        (line_nodes (current_dn st) (current_type st) raw ∪ nodes st)
        (next_dn (current_dn st) raw)
        (next_type (current_type st) raw)).
Proof.
  unfold line_body, line_edges, line_nodes, next_dn, next_type,
    reaches_membership, assigned_type, line_value.
  destruct (startswith (strip raw) "dn:") eqn:Hdn.
  { destruct (getitem_1_startswith _ "dn" Hdn) as (v & -> & ->). simpl.
    by rewrite app_nil_r, (left_id_L ∅ (∪)). }
  destruct (startswith (strip raw) "objectClass:") eqn:Hoc.
  { simpl. rewrite app_nil_r, (left_id_L ∅ (∪)).
    destruct (_ || _); [done|]. destruct (_ || _); [done|]. by destruct st. }
  destruct (startswith (strip raw) "uid:" && _) eqn:Huid.
  { apply andb_true_iff in Huid as [Hp _].
    destruct (getitem_1_startswith _ "uid" Hp) as (v & -> & ->). simpl.
    by rewrite app_nil_r. }
  destruct (startswith (strip raw) "cn:" && _) eqn:Hcn.
  { apply andb_true_iff in Hcn as [Hp _].
    destruct (getitem_1_startswith _ "cn" Hp) as (v & -> & ->). simpl.
    by rewrite app_nil_r. }
  simpl. rewrite membership_loop, (left_id_L ∅ (∪)). done.
Qed.

(** ** The loop over the lines *)

Lemma parse_lines_snoc (attrs : list string) (st : locals) (pre : list string)
  (raw : string) :
  parse_lines attrs st (pre ++ [raw]) =
  st' ← parse_lines attrs st pre; line_body attrs st' raw.
Proof.
  unfold parse_lines. rewrite for_each_app.
  destruct (for_each _ st pre) as [s|e]; [|done].
  rewrite !bind_Ok, for_each_cons. by destruct (line_body attrs s raw).
Qed.

(** The loop returns from any locals; what it appends to [edges], adds
    to [nodes] and leaves in [current_dn] and [current_type] depends on
    the table and the context it starts with, not on the edges and
    nodes collected so far. *)
Lemma parse_lines_frame (attrs lines : list string) (u : gmap string string)
  (d t : option string) :
  ∃ E N D T, ∀ es ns,
    parse_lines attrs (Locals u es ns d t) lines =
    Ok (Locals u (es ++ E) (N ∪ ns) D T).
Proof.
  revert d t. induction lines as [|raw lines IH]; intros d t.
  - exists [], ∅, d, t. intros es ns. simpl.
    by rewrite app_nil_r, (left_id_L ∅ (∪)).
  - destruct (IH (next_dn d raw) (next_type t raw)) as (E & N & D & T & H).
    exists (line_edges attrs u d t raw ++ E), (N ∪ line_nodes d t raw), D, T.
    intros es ns. unfold parse_lines in *.
    rewrite for_each_cons, line_body_effect, bind_Ok. simpl.
    rewrite H. by rewrite <- !(assoc_L (++)), <- !(assoc_L (∪)).
Qed.

Lemma governing_dn_snoc (pre : list string) (raw : string) :
  governing_dn (pre ++ [raw]) = next_dn (governing_dn pre) raw.
Proof. unfold governing_dn. by rewrite rev_unit. Qed.

Lemma governing_type_snoc (pre : list string) (raw : string) :
  governing_type (pre ++ [raw]) = next_type (governing_type pre) raw.
Proof. unfold governing_type. by rewrite rev_unit. Qed.

Lemma snoc_eq_middle {A : Type} (l pre post : list A) (x raw : A) :
  l ++ [x] = pre ++ raw :: post →
  (pre = l ∧ raw = x ∧ post = []) ∨
  (∃ post', post = post' ++ [x] ∧ l = pre ++ raw :: post').
Proof.
  destruct post as [|y post _] using rev_ind; intros H.
  - left. apply (app_inj_tail l pre x raw) in H as [-> ->]. done.
  - right. exists post.
    rewrite app_comm_cons, app_assoc in H.
    apply app_inj_tail in H as [-> ->]. done.
Qed.

(** What the locals hold after the loop has run over [lines] from the
    initial locals: the context is the one read off the lines, and the
    nodes and edges are those of the single lines, each taken in the
    context of the lines above it. *)
Lemma parse_lines_init (attrs lines : list string) :
  ∃ st, parse_lines attrs parse_ldif_init lines = Ok st ∧
    uid_to_dn st = ∅ ∧
    current_dn st = governing_dn lines ∧
    current_type st = governing_type lines ∧
    (∀ n, n ∈ nodes st ↔ ∃ pre raw post, lines = pre ++ raw :: post ∧
        n ∈ line_nodes (governing_dn pre) (governing_type pre) raw) ∧
    (∀ e, e ∈ edges st ↔ ∃ pre raw post, lines = pre ++ raw :: post ∧
        e ∈ line_edges attrs ∅ (governing_dn pre) (governing_type pre) raw).
Proof.
  induction lines as [|x l IH] using rev_ind.
  - exists parse_ldif_init. split_and!; try done.
    + intros n. split; [set_solver|]. intros (pre & raw & post & H & _).
      by destruct pre.
    + intros e. split; [by intros ?%elem_of_nil|].
      intros (pre & raw & post & H & _). by destruct pre.
  - destruct IH as (st & Hrun & Hu & Hd & Ht & Hn & He).
    rewrite parse_lines_snoc, Hrun, bind_Ok, line_body_effect.
    eexists. split; [done|]. simpl.
    rewrite governing_dn_snoc, governing_type_snoc, Hu, Hd, Ht.
    split_and!; try done.
    + intros n. rewrite elem_of_union, Hn. split.
      * intros [H|(pre & raw & post & -> & H)].
        -- exists l, x, []. done.
        -- exists pre, raw, (post ++ [x]). by rewrite <- app_assoc.
      * intros (pre & raw & post & Heq & H).
        apply snoc_eq_middle in Heq as [(-> & -> & ->)|(post' & -> & ->)].
        -- by left.
        -- right. by exists pre, raw, post'.
    + intros e. rewrite elem_of_app, He. split.
      * intros [(pre & raw & post & -> & H)|H].
        -- exists pre, raw, (post ++ [x]). by rewrite <- app_assoc.
        -- exists l, x, []. done.
      * intros (pre & raw & post & Heq & H).
        apply snoc_eq_middle in Heq as [(-> & -> & ->)|(post' & -> & ->)].
        -- by right.
        -- left. by exists pre, raw, post'.
Qed.

(** ** The single-line effects in the specification's terms *)

Local Arguments startswith : simpl never.
Local Arguments str_in : simpl never.

Lemma line_value_app (a v : string) :
  colon_free a = true → line_value (a +:+ ":" +:+ v) = strip v.
Proof. intros H. unfold line_value. by rewrite partition_colon_app. Qed.

Lemma line_value_uid (v : string) : line_value ("uid:" +:+ v) = strip v.
Proof. exact (line_value_app "uid" v eq_refl). Qed.

Lemma line_value_cn (v : string) : line_value ("cn:" +:+ v) = strip v.
Proof. exact (line_value_app "cn" v eq_refl). Qed.

Lemma truthy_Some (s : string) : truthy (Some s) = true ↔ s ≠ "".
Proof. destruct s; simpl; split; done. Qed.

Lemma line_nodes_spec (d t : option string) (raw : string) (n : node) :
  n ∈ line_nodes d t raw ↔ adds_node d t raw n.
Proof.
  unfold line_nodes, adds_node. split.
  - destruct (startswith (strip raw) "dn:"); [by intros ?%not_elem_of_empty|].
    destruct (startswith (strip raw) "objectClass:");
      [by intros ?%not_elem_of_empty|].
    destruct (startswith (strip raw) "uid:") eqn:Hu; simpl.
    { apply startswith_inv in Hu as [v Hv]. rewrite Hv.
      case_bool_decide as Ht; simpl.
      - intros ->%elem_of_singleton. left. exists v.
        by rewrite line_value_uid.
      - change (startswith ("uid:" +:+ v) "cn:") with false. simpl.
        by intros ?%not_elem_of_empty. }
    destruct (startswith (strip raw) "cn:") eqn:Hc; simpl;
      [|by intros ?%not_elem_of_empty].
    case_bool_decide as Ht; simpl; [|by intros ?%not_elem_of_empty].
    intros ->%elem_of_singleton. right.
    apply startswith_inv in Hc as [v Hv]. exists v.
    rewrite Hv. by rewrite line_value_cn.
  - intros [(v & Hv & -> & ->)|(v & Hv & -> & ->)]; rewrite Hv.
    + change (startswith ("uid:" +:+ v) "dn:") with false.
      change (startswith ("uid:" +:+ v) "objectClass:") with false.
      change (startswith ("uid:" +:+ v) "uid:") with true.
      rewrite bool_decide_eq_true_2 by done. simpl.
      rewrite line_value_uid. by apply elem_of_singleton.
    + change (startswith ("cn:" +:+ v) "dn:") with false.
      change (startswith ("cn:" +:+ v) "objectClass:") with false.
      change (startswith ("cn:" +:+ v) "uid:") with false.
      change (startswith ("cn:" +:+ v) "cn:") with true. simpl.
      rewrite line_value_cn. by apply elem_of_singleton.
Qed.

Lemma elem_of_member_edges (u : gmap string string) (d : option string)
  (line : string) (attrs : list string) (e : edge) :
  e ∈ member_edges u d line attrs ↔
  ∃ attr, attr ∈ attrs ∧ e ∈ member_edge u d line attr.
Proof.
  unfold member_edges. rewrite list_elem_of_In, in_flat_map.
  split; intros (attr & H1 & H2); exists attr;
    by rewrite ?list_elem_of_In in *.
Qed.

(** With the empty table, an attribute contributes an edge exactly when
    it is not [memberUid], the line starts with it and a colon, and the
    value is not empty. *)
Lemma member_edge_empty (d : option string) (line attr : string) (e : edge) :
  e ∈ member_edge ∅ d line attr ↔
  startswith line (attr +:+ ":") = true ∧ attr ≠ "memberUid" ∧
  line_value line ≠ "" ∧ e = (line_value line, d, "memberOf").
Proof.
  unfold member_edge.
  destruct (startswith line (attr +:+ ":"));
    [|split; [by intros ?%elem_of_nil|by intros (? & _)]].
  destruct (decide (attr = "memberUid")) as [->|Hne].
  - rewrite lookup_empty.
    split; [by intros ?%elem_of_nil|by intros (_ & ? & _)].
  - destruct (truthy (Some (line_value line))) eqn:Htr.
    + apply truthy_Some in Htr. rewrite list_elem_of_singleton.
      split; [by intros ->|by intros (_ & _ & _ & ->)].
    + assert (line_value line = "") as Hv.
      { destruct (line_value line); [done|discriminate Htr]. }
      split; [by intros ?%elem_of_nil|by intros (_ & _ & ? & _)].
Qed.

Lemma parse_lines_app (attrs : list string) (st : locals) (xs ys : list string) :
  parse_lines attrs st (xs ++ ys) =
  st' ← parse_lines attrs st xs; parse_lines attrs st' ys.
Proof. apply for_each_app. Qed.

Lemma parse_lines_cons (attrs : list string) (st : locals) (raw : string)
  (rest : list string) :
  parse_lines attrs st (raw :: rest) =
  st' ← line_body attrs st raw; parse_lines attrs st' rest.
Proof. reflexivity. Qed.

(** [parse_ldif] returns, and what it returns is read off the locals
    that the loop leaves. *)
Lemma parse_ldif_locals (content : string) (attrs : list string) :
  ∃ st, parse_lines attrs parse_ldif_init (splitlines content) = Ok st ∧
    parse_ldif content attrs = Ok (elements (nodes st), edges st).
Proof.
  destruct (parse_lines_init attrs (splitlines content)) as (st & Hrun & _).
  exists st. split; [done|]. unfold parse_ldif. by rewrite Hrun.
Qed.

(** The nodes of the result: those that some line adds in the context
    of the lines above it. *)
Lemma parse_ldif_nodes (content : string) (attrs : list string) :
  ∃ ns es, parse_ldif content attrs = Ok (ns, es) ∧ NoDup ns ∧
    ∀ n, n ∈ ns ↔ ∃ pre raw post, splitlines content = pre ++ raw :: post ∧
        adds_node (governing_dn pre) (governing_type pre) raw n.
Proof.
  destruct (parse_lines_init attrs (splitlines content))
    as (st & Hrun & _ & _ & _ & Hn & _).
  exists (elements (nodes st)), (edges st). split_and!.
  - unfold parse_ldif. by rewrite Hrun.
  - apply NoDup_elements.
  - intros n. rewrite elem_of_elements, Hn.
    by setoid_rewrite line_nodes_spec.
Qed.

(** The edges of the result.  The table is empty throughout, so only
    the attributes other than [memberUid] contribute. *)
Lemma parse_ldif_edges (content : string) (attrs : list string) :
  ∃ ns es, parse_ldif content attrs = Ok (ns, es) ∧
    ∀ e, e ∈ es ↔ ∃ pre raw post attr, splitlines content = pre ++ raw :: post ∧
        reaches_membership (governing_type pre) raw = true ∧
        attr ∈ attrs ∧ attr ≠ "memberUid" ∧
        startswith (strip raw) (attr +:+ ":") = true ∧
        line_value (strip raw) ≠ "" ∧
        e = (line_value (strip raw), governing_dn pre, "memberOf").
Proof.
  destruct (parse_lines_init attrs (splitlines content))
    as (st & Hrun & _ & _ & _ & _ & He).
  exists (elements (nodes st)), (edges st). split.
  - unfold parse_ldif. by rewrite Hrun.
  - intros e. rewrite He. unfold line_edges. split.
    + intros (pre & raw & post & Heq & H).
      destruct (reaches_membership _ raw) eqn:Hr; [|by apply elem_of_nil in H].
      apply elem_of_member_edges in H as (attr & Hin & H).
      apply member_edge_empty in H as (? & ? & ? & ?).
      by exists pre, raw, post, attr.
    + intros (pre & raw & post & attr & Heq & Hr & Hin & ? & ? & ? & ?).
      exists pre, raw, post. split; [done|]. rewrite Hr.
      apply elem_of_member_edges. exists attr. split; [done|].
      by apply member_edge_empty.
Qed.
Lemma objectClass_not_dn (line : string) :
  startswith line "objectClass:" = true → startswith line "dn:" = false.
Proof. by intros [r ->]%startswith_inv. Qed.

Lemma assigned_type_objectClass (raw ty : string) :
  assigned_type raw = Some ty → startswith (strip raw) "objectClass:" = true.
Proof. unfold assigned_type. by destruct (startswith (strip raw) "objectClass:"). Qed.

(** Lines that assign no type add no node while the type is unset, and
    leave it unset. *)
Lemma parse_lines_untyped (attrs ls : list string) (u : gmap string string)
  (es : list edge) (ns : gset node) (d : option string) :
  Forall (fun l => assigned_type l = None) ls →
  ∃ E D, parse_lines attrs (Locals u es ns d None) ls =
         Ok (Locals u (es ++ E) ns D None).
Proof.
  intros H. revert es d. induction H as [|raw ls Hraw _ IH]; intros es d.
  - exists [], d. simpl. by rewrite app_nil_r.
  - rewrite parse_lines_cons, line_body_effect, bind_Ok. simpl.
    assert (next_type None raw = None) as ->.
    { unfold next_type. rewrite Hraw. by destruct (startswith _ _). }
    assert (line_nodes d None raw = ∅) as ->.
    { unfold line_nodes. rewrite !andb_false_r.
      destruct (startswith (strip raw) "dn:"); [done|].
      by destruct (startswith (strip raw) "objectClass:"). }
    rewrite (left_id_L ∅ (∪)).
    destruct (IH (es ++ line_edges attrs u d None raw) (next_dn d raw)) as (E & D & ->).
    exists (line_edges attrs u d None raw ++ E), D. by rewrite <- app_assoc.
Qed.

(** Lines that are neither [uid:] nor [cn:] lines add no node. *)
Lemma parse_lines_unlabelled (attrs ls : list string) (u : gmap string string)
  (es : list edge) (ns : gset node) (d t : option string) :
  Forall (fun l => startswith (strip l) "uid:" = false ∧
                   startswith (strip l) "cn:" = false) ls →
  ∃ E D T, parse_lines attrs (Locals u es ns d t) ls =
           Ok (Locals u (es ++ E) ns D T).
Proof.
  intros H. revert es d t. induction H as [|raw ls [Hu Hc] _ IH]; intros es d t.
  - exists [], d, t. simpl. by rewrite app_nil_r.
  - rewrite parse_lines_cons, line_body_effect, bind_Ok. simpl.
    assert (line_nodes d t raw = ∅) as ->.
    { unfold line_nodes. rewrite Hu, Hc. simpl.
      destruct (startswith (strip raw) "dn:"); [done|].
      by destruct (startswith (strip raw) "objectClass:"). }
    rewrite (left_id_L ∅ (∪)).
    destruct (IH (es ++ line_edges attrs u d t raw) (next_dn d raw) (next_type t raw))
      as (E & D & T & ->).
    exists (line_edges attrs u d t raw ++ E), D, T. by rewrite <- app_assoc.
Qed.

(** An entry in which every [uid:] and [cn:] line stands above the
    first type-assigning [objectClass] line adds no node. *)
Lemma parse_lines_entry_labels_first (attrs pre post : list string)
  (dnl oc ty : string) (u : gmap string string) (es : list edge)
  (ns : gset node) (d t : option string) :
  startswith (strip dnl) "dn:" = true →
  Forall (fun l => assigned_type l = None) pre →
  assigned_type oc = Some ty →
  Forall (fun l => startswith (strip l) "uid:" = false ∧
                   startswith (strip l) "cn:" = false) post →
  ∃ E D T, parse_lines attrs (Locals u es ns d t) (dnl :: pre ++ oc :: post) =
           Ok (Locals u (es ++ E) ns D T).
Proof.
  intros Hdn Hpre Hoc Hpost.
  rewrite parse_lines_cons, line_body_effect, bind_Ok. simpl.
  assert (next_type t dnl = None) as -> by (unfold next_type; by rewrite Hdn).
  assert (line_nodes d t dnl = ∅) as -> by (unfold line_nodes; by rewrite Hdn).
  rewrite (left_id_L ∅ (∪)), parse_lines_app.
  destruct (parse_lines_untyped attrs pre u (es ++ line_edges attrs u d t dnl) ns
              (next_dn d dnl) Hpre) as (E1 & D1 & ->).
  rewrite bind_Ok, parse_lines_cons, line_body_effect, bind_Ok. simpl.
  assert (line_nodes D1 None oc = ∅) as ->.
  { unfold line_nodes. rewrite (assigned_type_objectClass _ _ Hoc).
    by destruct (startswith (strip oc) "dn:"). }
  rewrite (left_id_L ∅ (∪)).
  destruct (parse_lines_unlabelled attrs post u
              (((es ++ line_edges attrs u d t dnl) ++ E1) ++ line_edges attrs u D1 None oc)
              ns (next_dn D1 oc) (next_type None oc) Hpost) as (E2 & D2 & T2 & ->).
  exists (line_edges attrs u d t dnl ++ E1 ++ line_edges attrs u D1 None oc ++ E2), D2, T2.
  by rewrite <- !app_assoc.
Qed.
(** With [memberUid] the only configured attribute no document yields
    an edge: nothing ever inserts into [uid_to_dn]. *)
Lemma parse_ldif_memberUid_only (content : string) :
  ∃ ns, parse_ldif content ["memberUid"] = Ok (ns, []).
Proof.
  destruct (parse_ldif_edges content ["memberUid"]) as (ns & es & Hp & He).
  exists ns. rewrite Hp. do 2 f_equal.
  destruct es as [|e es]; [done|]. exfalso.
  destruct (proj1 (He e)) as (pre & raw & post & attr & _ & _ & Hin & Hne & _).
  { apply list_elem_of_here. }
  apply list_elem_of_singleton in Hin. done.
Qed.

(** C1 (the code departs from the claim): a document with the User
    entry [uid: alice] and a Group entry with [memberUid: alice], parsed
    with [memberUid] configured, yields both nodes and no edge.  The
    table [uid_to_dn] that the lookup reads is still empty. *)
Theorem memberUid_reference_unresolved :
  ∃ ns, parse_ldif posix_group_document ["memberUid"] = Ok (ns, []) ∧
    (Some "uid=alice,ou=people,dc=x", "alice", "User") ∈ ns ∧
    (Some "cn=staff,ou=groups,dc=x", "staff", "Group") ∈ ns.
Proof.
  eexists. split; [vm_compute; reflexivity|].
  split; apply list_elem_of_In; simpl; auto.
Qed.

(** C2: a node is in the result exactly when some [uid:] line stands
    under a most recent type assignment of User, or some [cn:] line
    under one of Group, within its entry; the node carries the entry's
    dn and the line's value.  An entry whose [uid:] and [cn:] lines all
    stand above its first type-assigning [objectClass] line contributes
    no node: the document has the nodes it has without that entry. *)
Theorem node_follows_governing_objectClass (content : string) (attrs : list string) :
  ∃ ns es, parse_ldif content attrs = Ok (ns, es) ∧
    (∀ n, n ∈ ns ↔ ∃ pre raw post, splitlines content = pre ++ raw :: post ∧
        adds_node (governing_dn pre) (governing_type pre) raw n) ∧
    (∀ content' before dnl pre oc post after ty,
        splitlines content = before ++ (dnl :: pre ++ oc :: post) ++ after →
        splitlines content' = before ++ after →
        startswith (strip dnl) "dn:" = true →
        Forall (fun l => assigned_type l = None) pre →
        assigned_type oc = Some ty →
        Forall (fun l => startswith (strip l) "uid:" = false ∧
                         startswith (strip l) "cn:" = false) post →
        after = [] ∨ (∃ l rest, after = l :: rest ∧ startswith (strip l) "dn:" = true) →
        ∃ ns' es', parse_ldif content' attrs = Ok (ns', es') ∧
          ∀ n, n ∈ ns ↔ n ∈ ns').
Proof.
  destruct (parse_ldif_nodes content attrs) as (ns & es & Hp & _ & Hn).
  exists ns, es. split_and!; [done|done|].
  intros content' before dnl pre oc post after ty Hl Hl' Hdn Hpre Hoc Hpost Hafter.
  destruct (parse_ldif_locals content attrs) as (st & Hrun & Hp1).
  destruct (parse_ldif_locals content' attrs) as (st' & Hrun' & Hp1').
  rewrite Hp in Hp1. injection Hp1 as -> ->.
  eexists _, _. split; [exact Hp1'|]. intros n. rewrite !elem_of_elements.
  rewrite Hl in Hrun. rewrite Hl' in Hrun'.
  rewrite parse_lines_app in Hrun, Hrun'.
  destruct (parse_lines_frame attrs before ∅ None None) as (E0 & N0 & D0 & T0 & Hb).
  unfold parse_ldif_init in *. rewrite Hb, bind_Ok in Hrun, Hrun'.
  destruct (parse_lines_entry_labels_first attrs pre post dnl oc ty ∅
              ([] ++ E0) (N0 ∪ ∅) D0 T0 Hdn Hpre Hoc Hpost) as (E1 & D1 & T1 & He).
  rewrite parse_lines_app, He, bind_Ok in Hrun.
  destruct Hafter as [->|(l & rest & -> & Hldn)].
  - simpl in Hrun, Hrun'. injection Hrun as <-. injection Hrun' as <-. done.
  - rewrite parse_lines_cons, line_body_effect, bind_Ok in Hrun, Hrun'.
    simpl in Hrun, Hrun'.
    unfold next_dn, next_type, line_nodes in Hrun, Hrun'.
    rewrite Hldn in Hrun, Hrun'.
    destruct (parse_lines_frame attrs rest ∅ (Some (line_value (strip l))) None)
      as (E2 & N2 & D2 & T2 & Hr).
    rewrite Hr in Hrun, Hrun'. injection Hrun as <-. injection Hrun' as <-. done.
Qed.
(** An entry whose [uid:] line stands above its [objectClass] line,
    after a well-ordered entry: only the first entry has a node. *)
Lemma node_follows_governing_objectClass_witness :
  ∃ ns es,
    parse_ldif
      (unlines [ "dn: uid=alice,dc=x"; "objectClass: inetOrgPerson"; "uid: alice";
                 "dn: uid=bob,dc=x"; "uid: bob"; "objectClass: inetOrgPerson" ])
      ["member"] = Ok (ns, es) ∧
    ∀ n, n ∈ ns ↔ n = (Some "uid=alice,dc=x", "alice", "User").
Proof.
  destruct (node_follows_governing_objectClass
              (unlines [ "dn: uid=alice,dc=x"; "objectClass: inetOrgPerson"; "uid: alice";
                         "dn: uid=bob,dc=x"; "uid: bob"; "objectClass: inetOrgPerson" ])
              ["member"]) as (ns & es & Hp & _ & Hentry).
  exists ns, es. split; [exact Hp|].
  destruct (Hentry
              (unlines [ "dn: uid=alice,dc=x"; "objectClass: inetOrgPerson"; "uid: alice" ])
              [ "dn: uid=alice,dc=x"; "objectClass: inetOrgPerson"; "uid: alice" ]
              "dn: uid=bob,dc=x" ["uid: bob"] "objectClass: inetOrgPerson" [] [] "User")
    as (ns' & es' & Hp' & Hiff).
  - reflexivity.
  - reflexivity.
  - reflexivity.
  - repeat constructor.
  - reflexivity.
  - constructor.
  - by left.
  - vm_compute in Hp'. injection Hp' as <- <-.
    intros n. rewrite Hiff. apply list_elem_of_singleton.
Defined.

(** C3 (as stated, refuted): a configured [member] line with an empty
    value emits no edge, and a [cn] line in a Group entry emits no edge
    although [cn] is configured: the node branch takes the line. *)
Lemma membership_line_without_edge :
  (splitlines (unlines ["dn: cn=g,dc=x"; "member:"]) = ["dn: cn=g,dc=x"] ++ "member:" :: [] ∧
   strip "member:" = "member" +:+ ":" +:+ "" ∧
   ∃ ns es, parse_ldif (unlines ["dn: cn=g,dc=x"; "member:"]) ["member"] = Ok (ns, es) ∧
     ("", Some "cn=g,dc=x", "memberOf") ∉ es) ∧
  (splitlines (unlines ["dn: cn=g,dc=x"; "objectClass: posixGroup"; "cn: g"]) =
     ["dn: cn=g,dc=x"; "objectClass: posixGroup"] ++ "cn: g" :: [] ∧
   strip "cn: g" = "cn" +:+ ":" +:+ " g" ∧
   ∃ ns es, parse_ldif (unlines ["dn: cn=g,dc=x"; "objectClass: posixGroup"; "cn: g"])
              ["cn"] = Ok (ns, es) ∧
     ("g", Some "cn=g,dc=x", "memberOf") ∉ es).
Proof.
  split; (split; [reflexivity|]); (split; [reflexivity|]);
    eexists _, _; (split; [vm_compute; reflexivity|]); by intros ?%elem_of_nil.
Qed.

(** C3 (amended): a line left to the membership loop whose attribute
    name is a configured name other than [memberUid] and whose trimmed
    value is not empty emits the edge (value, current dn, "memberOf");
    every edge of the result carries the relation "memberOf". *)
Theorem membership_line_emits_edge (content : string) (attrs pre post : list string)
  (raw a v : string) :
  splitlines content = pre ++ raw :: post →
  strip raw = a +:+ ":" +:+ v →
  colon_free a = true →
  a ∈ attrs →
  a ≠ "memberUid" →
  strip v ≠ "" →
  reaches_membership (governing_type pre) raw = true →
  ∃ ns es, parse_ldif content attrs = Ok (ns, es) ∧
    (strip v, governing_dn pre, "memberOf") ∈ es ∧
    ∀ e, e ∈ es → e.2 = "memberOf".
Proof.
  intros Hl Hraw Ha Hin Hne Hv Hr.
  destruct (parse_ldif_edges content attrs) as (ns & es & Hp & He).
  exists ns, es. split; [done|]. split.
  - apply He. exists pre, raw, post, a. rewrite Hraw.
    rewrite (line_value_app a v Ha). split_and!; try done.
    rewrite <- str_app_assoc. apply startswith_app.
  - intros e (? & ? & ? & ? & _ & _ & _ & _ & _ & _ & ->)%He. done.
Qed.

Lemma membership_line_emits_edge_witness :
  ∃ ns es,
    parse_ldif
      (unlines [ "dn: cn=admins,ou=groups,dc=x"; "objectClass: groupOfNames";
                 "cn: admins"; "uniqueMember:  uid=alice,ou=people,dc=x " ])
      ["member"; "uniqueMember"] = Ok (ns, es) ∧
    ("uid=alice,ou=people,dc=x", Some "cn=admins,ou=groups,dc=x", "memberOf") ∈ es.
Proof.
  destruct (membership_line_emits_edge
    (unlines [ "dn: cn=admins,ou=groups,dc=x"; "objectClass: groupOfNames";
               "cn: admins"; "uniqueMember:  uid=alice,ou=people,dc=x " ])
    ["member"; "uniqueMember"]
    [ "dn: cn=admins,ou=groups,dc=x"; "objectClass: groupOfNames"; "cn: admins" ] []
    "uniqueMember:  uid=alice,ou=people,dc=x " "uniqueMember"
    "  uid=alice,ou=people,dc=x") as (ns & es & Hp & He & _).
  - reflexivity.
  - reflexivity.
  - reflexivity.
  - apply list_elem_of_In. simpl. auto.
  - discriminate.
  - discriminate.
  - reflexivity.
  - exists ns, es. split; [exact Hp|exact He].
Defined.
(** ** [detect_membership_attributes] *)

(** The attribute name of a line, as the code takes it and as the text
    strictly before the first colon. *)
Lemma attribute_name_iff (line a : string) :
  str_in ":" line = true ∧ (partition_colon line).1 = a ↔
  ∃ rest, line = a +:+ ":" +:+ rest ∧ colon_free a = true.
Proof.
  split.
  - intros [[v Hv]%partition_colon_some <-].
    destruct (partition_colon_fst line) as (Hfree & Hsome & _).
    exists v. split; [by apply Hsome|done].
  - intros (rest & -> & Hfree). split.
    + apply partition_colon_some. by rewrite partition_colon_app.
    + by rewrite partition_colon_app.
Qed.

Lemma detect_body_effect (detected : gset string) (raw : string) :
  LDIFConsole.detect_body detected raw =
  Ok (if str_in ":" (strip raw) &&
         bool_decide ((partition_colon (strip raw)).1 ∈ LDIFConsole.common_attributes)
      then {[ (partition_colon (strip raw)).1 ]} ∪ detected
      else detected).
Proof.
  unfold LDIFConsole.detect_body, split_colon_1.
  destruct (str_in ":" (strip raw)); [|done].
  destruct (partition_colon (strip raw)) as [a [b|]]; simpl;
    by destruct (bool_decide _).
Qed.

Lemma detect_loop (lines : list string) (detected : gset string) :
  ∃ detected', for_each LDIFConsole.detect_body detected lines = Ok detected' ∧
    ∀ a, a ∈ detected' ↔
      a ∈ detected ∨
      (a ∈ LDIFConsole.common_attributes ∧
       ∃ raw rest, raw ∈ lines ∧ strip raw = a +:+ ":" +:+ rest ∧ colon_free a = true).
Proof.
  revert detected. induction lines as [|x lines IH]; intros detected.
  - exists detected. split; [done|]. intros a. split; [by left|].
    intros [H|(_ & raw & _ & []%elem_of_nil & _)]. done.
  - rewrite for_each_cons, detect_body_effect, bind_Ok.
    destruct (IH (if str_in ":" (strip x) &&
                     bool_decide ((partition_colon (strip x)).1 ∈ LDIFConsole.common_attributes)
                  then {[ (partition_colon (strip x)).1 ]} ∪ detected
                  else detected)) as (detected' & -> & H).
    exists detected'. split; [done|]. intros a. rewrite H. clear H IH.
    split.
    + intros [Hhd|(Hc & raw & rest & Hin & Hraw & Hfree)].
      * destruct (str_in ":" (strip x)) eqn:Hcolon; simpl in Hhd; [|by left].
        case_bool_decide as Hcommon; [|by left].
        apply elem_of_union in Hhd as [->%elem_of_singleton|Hhd]; [|by left].
        right. split; [done|].
        destruct (proj1 (attribute_name_iff (strip x) _) (conj Hcolon eq_refl))
          as (rest & Hx & Hfree).
        exists x, rest. split_and!; [apply list_elem_of_here|done|done].
      * right. split; [done|]. exists raw, rest.
        split_and!; [by apply list_elem_of_further|done|done].
    + intros [Hin|(Hc & raw & rest & Hin & Hraw & Hfree)].
      * left. destruct (_ && _); [|done]. apply elem_of_union. by right.
      * apply elem_of_cons in Hin as [->|Hin].
        -- left.
           destruct (proj2 (attribute_name_iff (strip x) a)) as [-> ->]; [by exists rest|].
           simpl. rewrite bool_decide_eq_true_2 by done.
           apply elem_of_union. left. by apply elem_of_singleton.
        -- right. split; [done|]. by exists raw, rest.
Qed.

(** C4: the detector returns, without repetition, exactly the names of
    the vocabulary that are the text strictly before the first colon of
    some trimmed line; a document of [memberOf:] lines does not yield
    [member], nor one of [member:] lines [memberOf]; with no such line
    the result is empty. *)
Theorem detect_membership_attributes_exact (self : LDIFConsole.console) :
  ∃ detected, LDIFConsole.detect_membership_attributes self = Ok detected ∧
    NoDup detected ∧
    (∀ a, a ∈ detected ↔
       a ∈ LDIFConsole.common_attributes ∧
       ∃ content raw rest, LDIFConsole.ldif_content self = Some content ∧
         raw ∈ splitlines content ∧ strip raw = a +:+ ":" +:+ rest ∧
         colon_free a = true) ∧
    ((∀ content raw, LDIFConsole.ldif_content self = Some content →
        raw ∈ splitlines content → ∃ rest, strip raw = "memberOf:" +:+ rest) →
     "member" ∉ detected) ∧
    ((∀ content raw, LDIFConsole.ldif_content self = Some content →
        raw ∈ splitlines content → ∃ rest, strip raw = "member:" +:+ rest) →
     "memberOf" ∉ detected) ∧
    ((∀ content raw a rest, LDIFConsole.ldif_content self = Some content →
        raw ∈ splitlines content → a ∈ LDIFConsole.common_attributes →
        strip raw ≠ a +:+ ":" +:+ rest) →
     detected = []).
Proof.
  assert (∃ detected, LDIFConsole.detect_membership_attributes self = Ok detected ∧
    NoDup detected ∧
    (∀ a, a ∈ detected ↔
       a ∈ LDIFConsole.common_attributes ∧
       ∃ content raw rest, LDIFConsole.ldif_content self = Some content ∧
         raw ∈ splitlines content ∧ strip raw = a +:+ ":" +:+ rest ∧
         colon_free a = true)) as (detected & Hd & Hnd & Hiff).
  { unfold LDIFConsole.detect_membership_attributes.
    destruct (truthy (LDIFConsole.ldif_content self)) eqn:Htr; simpl.
    - destruct (LDIFConsole.ldif_content self) as [content|]; [|done]. simpl.
      destruct (detect_loop (splitlines content) ∅) as (detected' & -> & H).
      exists (elements detected'). split_and!; [done|apply NoDup_elements|].
      intros a. rewrite elem_of_elements, H. split.
      + intros [[]%not_elem_of_empty|(Hc & raw & rest & ?)].
        split; [done|]. by exists content, raw, rest.
      + intros (Hc & content' & raw & rest & [= <-] & ?). right.
        split; [done|]. by exists raw, rest.
    - exists []. split_and!; [done|constructor|].
      intros a. split; [by intros ?%elem_of_nil|].
      intros (_ & content & raw & rest & Hc & Hin & _). rewrite Hc in Htr.
      destruct content; [by apply elem_of_nil in Hin|done]. }
  exists detected. split_and!; [done|done|done|..].
  - intros Hall (_ & content & raw & rest & Hc & Hin & Hraw & _)%Hiff.
    destruct (Hall content raw Hc Hin) as [rest' Hraw']. rewrite Hraw in Hraw'.
    discriminate Hraw'.
  - intros Hall (_ & content & raw & rest & Hc & Hin & Hraw & _)%Hiff.
    destruct (Hall content raw Hc Hin) as [rest' Hraw']. rewrite Hraw in Hraw'.
    discriminate Hraw'.
  - intros Hnone. destruct detected as [|a l]; [done|]. exfalso.
    destruct (proj1 (Hiff a)) as (Hc & content & raw & rest & Hco & Hin & Hraw & _).
    { apply list_elem_of_here. }
    by apply (Hnone content raw a rest).
Qed.
(** A document of [memberOf:] lines: [memberOf] is detected, [member]
    is not. *)
Lemma detect_membership_attributes_exact_witness :
  ∃ detected,
    LDIFConsole.detect_membership_attributes
      (LDIFConsole.Console
         (Some (unlines ["memberOf: cn=a,dc=x"; "  memberOf: cn=b,dc=x"]))
         ["member"; "memberUid"] [] []) = Ok detected ∧
    ("member" ∉ detected) ∧ ("memberOf" ∈ detected).
Proof.
  destruct (detect_membership_attributes_exact
              (LDIFConsole.Console
                 (Some (unlines ["memberOf: cn=a,dc=x"; "  memberOf: cn=b,dc=x"]))
                 ["member"; "memberUid"] [] []))
    as (detected & Hd & _ & Hiff & Hno & _ & _).
  exists detected. split; [exact Hd|]. split.
  - apply Hno. intros content raw [= <-] Hin.
    change (raw ∈ ["memberOf: cn=a,dc=x"; "  memberOf: cn=b,dc=x"]) in Hin.
    apply elem_of_cons in Hin as [->|Hin]; [by exists " cn=a,dc=x"|].
    apply elem_of_cons in Hin as [->|Hin]; [by exists " cn=b,dc=x"|].
    destruct (not_elem_of_nil _ Hin).
  - apply Hiff. split; [repeat constructor|].
    eexists _, "  memberOf: cn=b,dc=x", " cn=b,dc=x". split; [reflexivity|].
    split; [|split; reflexivity].
    repeat constructor.
Defined.

(** ** The running classification *)

(** The assignment of a type by an [objectClass] line, in words: the
    line names a User class, or it names a Group class and no User
    class. *)
Lemma assigned_type_spec (raw ty : string) :
  assigned_type raw = Some ty ↔
  (∃ v, strip raw = "objectClass:" +:+ v) ∧
  ((ty = "User" ∧
    (names (strip raw) "inetOrgPerson" ∨ names (strip raw) "posixAccount")) ∨
   (ty = "Group" ∧
    ¬ (names (strip raw) "inetOrgPerson" ∨ names (strip raw) "posixAccount") ∧
    (names (strip raw) "groupOfNames" ∨ names (strip raw) "posixGroup" ∨
     names (strip raw) "groupOfMembers"))).
Proof.
  unfold assigned_type, names. rewrite <- !str_in_iff, <- startswith_iff.
  destruct (startswith (strip raw) "objectClass:"); [|split; [done|by intros [? _]]].
  destruct (str_in "inetOrgPerson" (strip raw)), (str_in "posixAccount" (strip raw)),
    (str_in "groupOfNames" (strip raw)), (str_in "posixGroup" (strip raw)),
    (str_in "groupOfMembers" (strip raw)); simpl;
    (split; [intros [= <-]|intros [_ H]]); intuition congruence.
Qed.

Lemma type_above_skip (skipped above : list string) :
  Forall (fun l => startswith (strip l) "dn:" = false ∧ assigned_type l = None) skipped →
  type_above (skipped ++ above) = type_above above.
Proof.
  induction 1 as [|l skipped [Hdn Hnone] _ IH]; [done|].
  simpl. by rewrite Hdn, Hnone.
Qed.

(** C5: whatever the lines above it assigned, the running type after an
    [objectClass] line that assigns a type, followed only by lines of
    the same entry that assign none, is the type of that line. *)
Theorem classification_by_last_objectClass (attrs pre1 pre2 : list string)
  (oc ty : string) :
  assigned_type oc = Some ty →
  Forall (fun l => startswith (strip l) "dn:" = false ∧ assigned_type l = None) pre2 →
  ∃ st, parse_lines attrs parse_ldif_init (pre1 ++ oc :: pre2) = Ok st ∧
    current_type st = Some ty.
Proof.
  intros Hoc Hpre2.
  destruct (parse_lines_init attrs (pre1 ++ oc :: pre2)) as (st & Hrun & _ & _ & Ht & _).
  exists st. split; [done|]. rewrite Ht. unfold governing_type.
  rewrite rev_app_distr. simpl. rewrite <- app_assoc.
  rewrite type_above_skip.
  - simpl. rewrite Hoc.
    by rewrite (objectClass_not_dn _ (assigned_type_objectClass _ _ Hoc)).
  - apply Forall_forall. intros l Hin. apply list_elem_of_In, in_rev in Hin.
    by apply (proj1 (Forall_forall _ _) Hpre2), list_elem_of_In.
Qed.

(** A Group class after a User class gives Group, with an [objectClass]
    line naming neither in between left without effect. *)
Lemma classification_by_last_objectClass_witness :
  ∃ st,
    parse_lines ["member"] parse_ldif_init
      ([ "dn: cn=ops,dc=x"; "objectClass: posixAccount"; "objectClass: top" ] ++
       "objectClass: posixGroup" :: [ "objectClass: top"; "description: ops" ]) = Ok st ∧
    current_type st = Some "Group".
Proof.
  apply (classification_by_last_objectClass ["member"]
           [ "dn: cn=ops,dc=x"; "objectClass: posixAccount"; "objectClass: top" ]
           [ "objectClass: top"; "description: ops" ]
           "objectClass: posixGroup" "Group").
  - reflexivity.
  - repeat constructor.
Defined.
(** A line left to the membership loop, with a configured attribute
    name other than [memberUid] and a non-empty value, has its edge in
    the result. *)
Lemma parse_ldif_edge_present (content : string) (attrs pre post : list string)
  (raw a v : string) :
  splitlines content = pre ++ raw :: post →
  strip raw = a +:+ ":" +:+ v →
  colon_free a = true →
  a ∈ attrs →
  a ≠ "memberUid" →
  strip v ≠ "" →
  reaches_membership (governing_type pre) raw = true →
  ∃ ns es, parse_ldif content attrs = Ok (ns, es) ∧
    (strip v, governing_dn pre, "memberOf") ∈ es.
Proof.
  intros Hl Hraw Ha Hin Hne Hv Hr.
  destruct (parse_ldif_edges content attrs) as (ns & es & Hp & He).
  exists ns, es. split; [done|].
  apply He. exists pre, raw, post, a. rewrite Hraw.
  rewrite (line_value_app a v Ha). split_and!; try done.
  rewrite <- str_app_assoc. apply startswith_app.
Qed.

(** C6 (as stated, refuted): the target of a [member] reference is
    never classified as a node, and its edge is in the result. *)
Lemma dangling_member_reference_kept :
  ∃ ns es,
    parse_ldif
      (unlines [ "dn: cn=g,dc=x"; "objectClass: groupOfNames"; "cn: g";
                 "member: uid=ghost,dc=x" ])
      ["member"] = Ok (ns, es) ∧
    (∀ n, n ∈ ns → n.1.1 ≠ Some "uid=ghost,dc=x") ∧
    ("uid=ghost,dc=x", Some "cn=g,dc=x", "memberOf") ∈ es.
Proof.
  eexists _, _. split; [vm_compute; reflexivity|]. split.
  - intros n ->%list_elem_of_singleton. discriminate.
  - apply list_elem_of_here.
Qed.

(** C6 (amended): parsing always returns; a [memberUid] value that the
    table lacks is dropped: the step leaves the locals, and with them
    the edges, as they are and raises nothing; a reference by another
    configured attribute, on a line left to the membership loop and
    with a value that is not empty once trimmed, has its edge in the
    result whatever the nodes are. *)
Theorem unresolved_reference_policy (content : string) (attrs : list string) :
  ∃ ns es, parse_ldif content attrs = Ok (ns, es) ∧
    (∀ st line, uid_to_dn st !! line_value line = None →
       membership_body line st "memberUid" = Ok st) ∧
    (∀ pre raw post a v,
       splitlines content = pre ++ raw :: post →
       strip raw = a +:+ ":" +:+ v →
       colon_free a = true →
       a ∈ attrs →
       a ≠ "memberUid" →
       strip v ≠ "" →
       reaches_membership (governing_type pre) raw = true →
       (strip v, governing_dn pre, "memberOf") ∈ es).
Proof.
  destruct (parse_ldif_edges content attrs) as (ns & es & Hp & He).
  exists ns, es. split_and!; [done|..].
  - intros st line Hnone. rewrite membership_body_effect.
    unfold member_edge. rewrite decide_True by done. rewrite Hnone.
    destruct (startswith line _); rewrite app_nil_r; by destruct st.
  - intros pre raw post a v Hl Hraw Ha Hin Hne Hv Hr.
    destruct (parse_ldif_edge_present content attrs pre post raw a v)
      as (ns' & es' & Hp' & Hin'); try done.
    rewrite Hp in Hp'. by injection Hp' as -> ->.
Qed.

Lemma unresolved_reference_policy_witness :
  ∃ ns es,
    parse_ldif
      (unlines [ "dn: cn=g,dc=x"; "objectClass: posixGroup"; "cn: g";
                 "memberUid: alice"; "member: uid=ghost,dc=x" ])
      ["memberUid"; "member"] = Ok (ns, es) ∧
    ("uid=ghost,dc=x", Some "cn=g,dc=x", "memberOf") ∈ es.
Proof.
  destruct (unresolved_reference_policy
              (unlines [ "dn: cn=g,dc=x"; "objectClass: posixGroup"; "cn: g";
                         "memberUid: alice"; "member: uid=ghost,dc=x" ])
              ["memberUid"; "member"]) as (ns & es & Hp & _ & Hkept).
  exists ns, es. split; [exact Hp|].
  apply (Hkept [ "dn: cn=g,dc=x"; "objectClass: posixGroup"; "cn: g"; "memberUid: alice" ]
           "member: uid=ghost,dc=x" [] "member" " uid=ghost,dc=x").
  - reflexivity.
  - reflexivity.
  - reflexivity.
  - repeat constructor.
  - discriminate.
  - discriminate.
  - reflexivity.
Defined.
(** ** [parse] and [export] on the console *)

Lemma parse_loaded (self : LDIFConsole.console) :
  truthy (LDIFConsole.ldif_content self) = true →
  ∃ ns es,
    parse_ldif (default "" (LDIFConsole.ldif_content self))
      (LDIFConsole.membership_attributes self) = Ok (ns, es) ∧
    LDIFConsole.parse self =
    Ok (LDIFConsole.Console (LDIFConsole.ldif_content self)
          (LDIFConsole.membership_attributes self) ns es,
        LDIFConsole.Parsed (length ns) (length es)).
Proof.
  intros Htr. unfold LDIFConsole.parse. rewrite Htr. simpl.
  destruct (parse_ldif_nodes (default "" (LDIFConsole.ldif_content self))
              (LDIFConsole.membership_attributes self)) as (ns & es & Hp & _).
  exists ns, es. split; [done|]. by rewrite Hp.
Qed.






(** C8: [parse] on a console without a loaded document (no content, or
    empty content) returns normally with the console unchanged, its
    nodes and edges included, and reports that no file is loaded; and
    [parse] returns normally on every console. *)
Theorem parse_without_document (self : LDIFConsole.console)
  (attrs : list string) (ns : list node) (es : list edge) :
  LDIFConsole.parse (LDIFConsole.Console None attrs ns es) =
    Ok (LDIFConsole.Console None attrs ns es, LDIFConsole.NoLdifLoaded) ∧
  LDIFConsole.parse (LDIFConsole.Console (Some "") attrs ns es) =
    Ok (LDIFConsole.Console (Some "") attrs ns es, LDIFConsole.NoLdifLoaded) ∧
  ∃ self' msg, LDIFConsole.parse self = Ok (self', msg).
Proof.
  split_and!; [done|done|].
  destruct (truthy (LDIFConsole.ldif_content self)) eqn:Htr.
  - destruct (parse_loaded self Htr) as (ns' & es' & _ & ->). by eexists _, _.
  - unfold LDIFConsole.parse. rewrite Htr. by eexists _, _.
Qed.
(** ** The shape of the result *)

Lemma parse_lines_edges_in_order (attrs lines above : list string)
  (es : list edge) (ns : gset node) :
  ∃ st, parse_lines attrs (Locals ∅ es ns (dn_above above) (type_above above)) lines =
        Ok st ∧ edges st = es ++ edges_in_order attrs above lines.
Proof.
  revert above es ns. induction lines as [|raw rest IH]; intros above es ns.
  - eexists. split; [done|]. simpl. by rewrite app_nil_r.
  - rewrite parse_lines_cons, line_body_effect, bind_Ok. simpl.
    change (next_dn (dn_above above) raw) with (dn_above (raw :: above)).
    change (next_type (type_above above) raw) with (type_above (raw :: above)).
    destruct (IH (raw :: above)
                (es ++ line_edges attrs ∅ (dn_above above) (type_above above) raw)
                (line_nodes (dn_above above) (type_above above) raw ∪ ns))
      as (st & -> & He).
    exists st. split; [done|]. by rewrite He, <- app_assoc.
Qed.

(** The edges of a document that continues with [l2] after [l1] are
    those of [l1] followed by those of [l2]: later lines only append. *)
Lemma edges_in_order_app (attrs above l1 l2 : list string) :
  edges_in_order attrs above (l1 ++ l2) =
  edges_in_order attrs above l1 ++ edges_in_order attrs (rev l1 ++ above) l2.
Proof.
  revert above. induction l1 as [|x l1 IH]; intros above; [done|].
  simpl. rewrite IH, <- !app_assoc. done.
Qed.

(** C9: the edges are the edges of the single lines concatenated in
    document order, nothing being removed; the nodes are returned
    without repetition, and every triple that some line adds is among
    them, whatever its dn. *)
Theorem result_edges_ordered_nodes_set (content : string) (attrs : list string) :
  ∃ ns es, parse_ldif content attrs = Ok (ns, es) ∧
    es = edges_in_order attrs [] (splitlines content) ∧
    NoDup ns ∧
    (∀ n, n ∈ ns ↔ ∃ pre raw post, splitlines content = pre ++ raw :: post ∧
        adds_node (governing_dn pre) (governing_type pre) raw n).
Proof.
  destruct (parse_ldif_nodes content attrs) as (ns & es & Hp & Hnd & Hn).
  exists ns, es. split_and!; try done.
  destruct (parse_lines_edges_in_order attrs (splitlines content) [] [] ∅)
    as (st & Hrun & He).
  unfold parse_ldif in Hp. change (Locals ∅ [] ∅ (dn_above []) (type_above []))
    with parse_ldif_init in Hrun.
  rewrite Hrun in Hp. simpl in Hp. injection Hp as _ <-. by rewrite He.
Qed.

(** A membership line that occurs twice gives its edge twice, and one
    dn can carry two nodes. *)
Example repeated_member_line_two_edges :
  ∃ ns,
    parse_ldif (unlines [ "dn: cn=g,dc=x"; "member: uid=a,dc=x"; "member: uid=a,dc=x" ])
      ["member"] =
    Ok (ns, [ ("uid=a,dc=x", Some "cn=g,dc=x", "memberOf");
              ("uid=a,dc=x", Some "cn=g,dc=x", "memberOf") ]).
Proof. eexists. vm_compute. reflexivity. Qed.

Example one_dn_two_nodes :
  ∃ ns es,
    parse_ldif
      (unlines [ "dn: cn=x,dc=x"; "objectClass: posixAccount"; "uid: a"; "uid: a";
                 "uid: b"; "objectClass: posixGroup"; "cn: a" ])
      [] = Ok (ns, es) ∧
    length ns = 3 ∧
    (Some "cn=x,dc=x", "a", "User") ∈ ns ∧
    (Some "cn=x,dc=x", "b", "User") ∈ ns ∧
    (Some "cn=x,dc=x", "a", "Group") ∈ ns.
Proof.
  eexists _, _. split; [vm_compute; reflexivity|].
  split; [reflexivity|]. split_and!; repeat constructor.
Qed.

(** ** Lines above the first [dn:] line *)

Lemma dn_above_none (above : list string) :
  Forall (fun l => startswith (strip l) "dn:" = false) above →
  dn_above above = None.
Proof. induction 1 as [|l above Hl _ IH]; [done|]. simpl. by rewrite Hl. Qed.

(** C10 (as stated, refuted): above the first [dn:] line, a line of a
    configured attribute gives no edge when its value is empty, when
    the attribute is [memberUid] and no entry has that uid, or when an
    earlier branch takes the line, as for [objectClass]; and a [uid:]
    line gives no node when a Group class came after the User class. *)
Lemma lines_before_first_dn_without_effect :
  parse_ldif (unlines [ "member:"; "dn: cn=g,dc=x" ]) ["member"; "memberUid"] =
  Ok ([], []) ∧
  parse_ldif (unlines [ "memberUid: ghost"; "dn: cn=g,dc=x" ]) ["member"; "memberUid"] =
  Ok ([], []) ∧
  parse_ldif (unlines [ "objectClass: top"; "dn: cn=g,dc=x" ]) ["objectClass"] =
  Ok ([], []) ∧
  parse_ldif (unlines [ "objectClass: posixAccount"; "objectClass: posixGroup"; "uid: bob";
                        "dn: cn=g,dc=x" ]) ["member"; "memberUid"] =
  Ok ([], []).
Proof. split_and!; vm_compute; reflexivity. Qed.

(** C10 (amended): for a line with no [dn:] line above it, the current
    dn is null: a line there that is left to the membership loop, with
    a configured attribute other than [memberUid] and a value that is
    not empty once trimmed, has its edge in the result with a null
    target, and a [uid:] line there whose most recent type assignment
    is User has its node in the result with a null dn. *)
Theorem lines_before_first_dn (content : string) (attrs pre post : list string)
  (raw : string) :
  splitlines content = pre ++ raw :: post →
  Forall (fun l => startswith (strip l) "dn:" = false) pre →
  ∃ ns es, parse_ldif content attrs = Ok (ns, es) ∧
    (∀ a v, strip raw = a +:+ ":" +:+ v → colon_free a = true →
       a ∈ attrs → a ≠ "memberUid" → strip v ≠ "" →
       reaches_membership (governing_type pre) raw = true →
       (strip v, None, "memberOf") ∈ es) ∧
    (∀ v, strip raw = "uid:" +:+ v → governing_type pre = Some "User" →
       (None, strip v, "User") ∈ ns).
Proof.
  intros Hl Hpre.
  assert (governing_dn pre = None) as Hd.
  { apply dn_above_none, Forall_forall. intros l Hin.
    apply list_elem_of_In, in_rev in Hin.
    by apply (proj1 (Forall_forall _ _) Hpre), list_elem_of_In. }
  destruct (parse_ldif_nodes content attrs) as (ns & es & Hp & _ & Hn).
  exists ns, es. split_and!; [done|..].
  - intros a v Hraw Ha Hin Hne Hv Hr.
    destruct (parse_ldif_edge_present content attrs pre post raw a v)
      as (ns' & es' & Hp' & Hin'); try done.
    rewrite Hp in Hp'. injection Hp' as -> ->. by rewrite Hd in Hin'.
  - intros v Hraw Ht. apply Hn. exists pre, raw, post. split; [done|].
    left. exists v. by rewrite Hd.
Qed.

Lemma lines_before_first_dn_witness :
  ∃ ns es,
    parse_ldif (unlines [ "objectClass: posixAccount"; "uid: bob"; "member: uid=a,dc=x";
                          "dn: cn=g,dc=x" ])
      ["member"] = Ok (ns, es) ∧
    ("uid=a,dc=x", None, "memberOf") ∈ es.
Proof.
  destruct (lines_before_first_dn
              (unlines [ "objectClass: posixAccount"; "uid: bob"; "member: uid=a,dc=x";
                         "dn: cn=g,dc=x" ])
              ["member"] [ "objectClass: posixAccount"; "uid: bob" ] [ "dn: cn=g,dc=x" ]
              "member: uid=a,dc=x") as (ns & es & Hp & Hedge & _).
  - reflexivity.
  - repeat constructor.
  - exists ns, es. split; [exact Hp|].
    apply (Hedge "member" " uid=a,dc=x").
    + reflexivity.
    + reflexivity.
    + repeat constructor.
    + discriminate.
    + discriminate.
    + reflexivity.
Defined.

(** ** Further properties of [parse_ldif] *)

Lemma startswith_has_colon (line p : string) :
  startswith line (p +:+ ":") = true → str_in ":" line = true.
Proof.
  intros [r ->]%startswith_inv. apply str_in_iff. exists p, r.
  apply str_app_assoc.
Qed.

Lemma member_edges_nil_iff (u : gmap string string) (d : option string)
  (line : string) (attrs : list string) :
  Forall (fun attr => startswith line (attr +:+ ":") = false) attrs →
  member_edges u d line attrs = [].
Proof.
  induction 1 as [|attr attrs H _ IH]; [done|].
  unfold member_edges in *. simpl. rewrite IH, app_nil_r.
  unfold member_edge. by rewrite H.
Qed.

(** A line without a colon changes nothing. *)
Lemma line_body_no_colon (attrs : list string) (st : locals) (raw : string) :
  str_in ":" (strip raw) = false → line_body attrs st raw = Ok st.
Proof.
  intros Hc.
  assert (∀ p, startswith (strip raw) (p +:+ ":") = false) as Hp.
  { intros p. destruct (startswith (strip raw) (p +:+ ":")) eqn:H; [|done].
    apply startswith_has_colon in H. congruence. }
  rewrite line_body_effect.
  unfold line_edges, line_nodes, next_dn, next_type, assigned_type, reaches_membership.
  pose proof (Hp "dn") as Hdn. pose proof (Hp "objectClass") as Hoc.
  pose proof (Hp "uid") as Huid. pose proof (Hp "cn") as Hcn.
  change (startswith (strip raw) "dn:" = false) in Hdn.
  change (startswith (strip raw) "objectClass:" = false) in Hoc.
  change (startswith (strip raw) "uid:" = false) in Huid.
  change (startswith (strip raw) "cn:" = false) in Hcn.
  rewrite Hdn, Hoc, Huid, Hcn. simpl.
  rewrite member_edges_nil_iff by (apply Forall_forall; intros; apply Hp).
  rewrite app_nil_r, (left_id_L ∅ (∪)). by destruct st.
Qed.

Lemma parse_lines_filter_colon (attrs lines : list string) (st : locals) :
  parse_lines attrs st (List.filter (fun l => str_in ":" (strip l)) lines) =
  parse_lines attrs st lines.
Proof.
  revert st. induction lines as [|raw lines IH]; intros st; [done|].
  simpl. destruct (str_in ":" (strip raw)) eqn:Hc.
  - rewrite !parse_lines_cons. destruct (line_body attrs st raw); [apply IH|done].
  - rewrite parse_lines_cons, line_body_no_colon, bind_Ok by done. apply IH.
Qed.

(** X: lines without a colon (blank lines, comments without a colon,
    bare text) are ignored: a document has the result of the document
    left when these lines are taken out. *)
Theorem parse_ldif_ignores_colonless_lines (content content' : string)
  (attrs : list string) :
  splitlines content' = List.filter (fun l => str_in ":" (strip l)) (splitlines content) →
  parse_ldif content' attrs = parse_ldif content attrs.
Proof.
  intros H. unfold parse_ldif. by rewrite H, parse_lines_filter_colon.
Qed.

Lemma parse_ldif_ignores_colonless_lines_witness :
  parse_ldif (unlines [ "dn: cn=g,dc=x"; "member: uid=a,dc=x" ]) ["member"] =
  parse_ldif (unlines [ "# groups"; ""; "dn: cn=g,dc=x"; "   "; "member: uid=a,dc=x"; "end" ])
    ["member"].
Proof.
  apply (parse_ldif_ignores_colonless_lines
           (unlines [ "# groups"; ""; "dn: cn=g,dc=x"; "   "; "member: uid=a,dc=x"; "end" ])
           (unlines [ "dn: cn=g,dc=x"; "member: uid=a,dc=x" ]) ["member"]).
  reflexivity.
Defined.

(** The nodes that the loop collects do not depend on the configured
    attributes. *)
Lemma parse_lines_nodes_attrs (attrs1 attrs2 lines : list string) :
  ∃ st1 st2, parse_lines attrs1 parse_ldif_init lines = Ok st1 ∧
    parse_lines attrs2 parse_ldif_init lines = Ok st2 ∧ nodes st1 = nodes st2.
Proof.
  destruct (parse_lines_init attrs1 lines) as (st1 & H1 & _ & _ & _ & Hn1 & _).
  destruct (parse_lines_init attrs2 lines) as (st2 & H2 & _ & _ & _ & Hn2 & _).
  exists st1, st2. split_and!; [done|done|].
  apply set_eq. intros n. by rewrite Hn1, Hn2.
Qed.

(** X: the nodes of the result do not depend on the configured
    membership attributes: with any two attribute lists the same list
    of nodes is returned. *)
Theorem parse_ldif_nodes_independent_of_attributes (content : string)
  (attrs1 attrs2 : list string) :
  ∃ ns es1 es2, parse_ldif content attrs1 = Ok (ns, es1) ∧
    parse_ldif content attrs2 = Ok (ns, es2).
Proof.
  destruct (parse_lines_nodes_attrs attrs1 attrs2 (splitlines content))
    as (st1 & st2 & H1 & H2 & Hn).
  exists (elements (nodes st1)), (edges st1), (edges st2).
  unfold parse_ldif. rewrite H1, H2. simpl. by rewrite Hn.
Qed.

Lemma lstrip_head (s : string) : leading_space (lstrip s) = false.
Proof.
  induction s as [|c s IH]; [done|]. simpl.
  destruct (isspace c) eqn:Hc; [done|]. simpl. done.
Qed.

Lemma rstrip_cons (c : ascii) (s : string) :
  isspace c = false → rstrip (String c s) = String c (rstrip s).
Proof. intros Hc. simpl. rewrite Hc. by destruct (rstrip s). Qed.

Lemma rstrip_head (s : string) :
  leading_space s = false → leading_space (rstrip s) = false.
Proof.
  destruct s as [|c s]; [done|]. intros Hc. simpl in Hc.
  by rewrite rstrip_cons.
Qed.

Lemma strip_head (s : string) : leading_space (strip s) = false.
Proof. apply rstrip_head, lstrip_head. Qed.

Lemma lstrip_id (s : string) : leading_space s = false → lstrip s = s.
Proof. destruct s as [|c s]; [done|]. simpl. by intros ->. Qed.

Lemma rstrip_idem (s : string) : rstrip (rstrip s) = rstrip s.
Proof.
  induction s as [|c s IH]; [done|]. simpl.
  destruct (rstrip s) as [|c' r] eqn:Hr.
  - destruct (isspace c) eqn:Hc; [done|]. simpl. by rewrite Hc.
  - change (rstrip (String c (String c' r)))
      with (match rstrip (String c' r) with
            | EmptyString => if isspace c then EmptyString else String c EmptyString
            | r' => String c r'
            end).
    by rewrite IH.
Qed.

Lemma strip_idem (s : string) : strip (strip s) = strip s.
Proof.
  unfold strip at 1. rewrite lstrip_id by apply strip_head.
  unfold strip. apply rstrip_idem.
Qed.

Lemma line_body_strip (attrs : list string) (st : locals) (raw : string) :
  line_body attrs st (strip raw) = line_body attrs st raw.
Proof. unfold line_body. by rewrite strip_idem. Qed.

Lemma parse_lines_strip (attrs lines : list string) (st : locals) :
  parse_lines attrs st (map strip lines) = parse_lines attrs st lines.
Proof.
  revert st. induction lines as [|raw lines IH]; intros st; [done|].
  simpl. rewrite !parse_lines_cons, line_body_strip.
  destruct (line_body attrs st raw); [apply IH|done].
Qed.

(** X: white space around a line does not matter: a document has the
    result of the document in which every line is trimmed. *)
Theorem parse_ldif_ignores_indentation (content content' : string)
  (attrs : list string) :
  splitlines content' = map strip (splitlines content) →
  parse_ldif content' attrs = parse_ldif content attrs.
Proof. intros H. unfold parse_ldif. by rewrite H, parse_lines_strip. Qed.

Lemma parse_ldif_ignores_indentation_witness :
  parse_ldif (unlines [ "dn: cn=g,dc=x"; "member: uid=a,dc=x" ]) ["member"] =
  parse_ldif (unlines [ "  dn: cn=g,dc=x  "; "    member: uid=a,dc=x" ]) ["member"].
Proof.
  apply (parse_ldif_ignores_indentation
           (unlines [ "  dn: cn=g,dc=x  "; "    member: uid=a,dc=x" ])
           (unlines [ "dn: cn=g,dc=x"; "member: uid=a,dc=x" ]) ["member"]).
  reflexivity.
Defined.

Lemma startswith_leading_space (raw a : string) :
  leading_space a = true → startswith (strip raw) (a +:+ ":") = false.
Proof.
  intros Ha. destruct a as [|c a]; [done|]. simpl in Ha.
  pose proof (strip_head raw) as Hs.
  destruct (strip raw) as [|c' r]; [done|]. simpl in Hs.
  rewrite str_app_cons. unfold startswith. fold startswith.
  destruct (decide (c = c')) as [->|]; [congruence|done].
Qed.

Lemma member_edges_leading_space (u : gmap string string) (d : option string)
  (raw : string) (attrs : list string) :
  member_edges u d (strip raw) (List.filter (fun a => negb (leading_space a)) attrs) =
  member_edges u d (strip raw) attrs.
Proof.
  unfold member_edges. induction attrs as [|a attrs IH]; [done|].
  simpl. destruct (leading_space a) eqn:Ha; simpl.
  - rewrite IH. unfold member_edge at 2.
    by rewrite startswith_leading_space.
  - by rewrite IH.
Qed.

Lemma parse_lines_leading_space (attrs lines : list string) (st : locals) :
  parse_lines (List.filter (fun a => negb (leading_space a)) attrs) st lines =
  parse_lines attrs st lines.
Proof.
  revert st. induction lines as [|raw lines IH]; intros st; [done|].
  rewrite !parse_lines_cons, !line_body_effect, !bind_Ok.
  unfold line_edges. rewrite member_edges_leading_space. apply IH.
Qed.

(** X: a configured attribute name that begins with white space, as the
    second field of [member, uniqueMember] does, matches no line: the
    result is that of the attribute list without these names. *)
Theorem parse_ldif_ignores_attributes_with_leading_space (content : string)
  (attrs : list string) :
  parse_ldif content (List.filter (fun a => negb (leading_space a)) attrs) =
  parse_ldif content attrs.
Proof. unfold parse_ldif. by rewrite parse_lines_leading_space. Qed.

(** ** [get_group_entries] *)

Lemma get_group_entries_body_effect (attrs : list string)
  (G : list LDIFConsole.group_entry) (CE : list string) (D : option string)
  (M : list string) (I : bool) (raw : string) :
  LDIFConsole.get_group_entries_body attrs (G, CE, D, M, I) raw =
  Ok (if startswith (strip raw) "dn:"
      then (if I then G ++ [LDIFConsole.GroupEntry D M] else G,
            [strip raw; strip raw], Some (line_value (strip raw)), [], false)
      else if is_member_line attrs raw
      then (G, CE ++ [strip raw], D, M ++ [line_value (strip raw)], true)
      else (G, CE ++ [strip raw], D, M, I)).
Proof.
  unfold LDIFConsole.get_group_entries_body, is_member_line, line_value.
  destruct (startswith (strip raw) "dn:") eqn:Hdn.
  { by destruct (getitem_1_startswith _ "dn" Hdn) as (v & -> & ->). }
  simpl. destruct (existsb _ attrs) eqn:Hex; [|done].
  apply existsb_exists in Hex as (attr & _ & Hp).
  by destruct (getitem_1_startswith _ _ Hp) as (v & -> & ->).
Qed.

Lemma get_group_entries_of_end (content : string) (attrs : list string)
  (st : list LDIFConsole.group_entry * list string * option string * list string * bool) :
  for_each (LDIFConsole.get_group_entries_body attrs) ([], [], None, [], false)
    (splitlines content) = Ok st →
  LDIFConsole.get_group_entries_of content attrs = Ok (group_entries_at_end st).
Proof.
  intros H. unfold LDIFConsole.get_group_entries_of. rewrite H.
  by destruct st as [[[[G CE] D] M] I].
Qed.

(** From any local variables the loop returns; the entries collected so
    far stay in the result, and while [inside_group] holds, the result
    has an entry with the current dn and all members collected so far. *)
Lemma get_group_entries_loop_keeps (attrs lines : list string)
  (G : list LDIFConsole.group_entry) (CE : list string) (D : option string)
  (M : list string) (I : bool) :
  ∃ st, for_each (LDIFConsole.get_group_entries_body attrs) (G, CE, D, M, I) lines = Ok st ∧
    (∀ g, g ∈ G → g ∈ group_entries_at_end st) ∧
    (I = true → ∃ g, g ∈ group_entries_at_end st ∧ LDIFConsole.dn g = D ∧
                  ∀ m, m ∈ M → m ∈ LDIFConsole.members g).
Proof.
  revert G CE D M I. induction lines as [|raw lines IH]; intros G CE D M I.
  - exists (G, CE, D, M, I). split; [done|]. simpl. split.
    + intros g Hg. destruct I; [apply elem_of_app; by left|done].
    + intros ->. exists (LDIFConsole.GroupEntry D M). split_and!; [|done|done].
      apply elem_of_app. right. apply list_elem_of_here.
  - rewrite for_each_cons, get_group_entries_body_effect, bind_Ok.
    destruct (startswith (strip raw) "dn:").
    + destruct (IH (if I then G ++ [LDIFConsole.GroupEntry D M] else G)
                  [strip raw; strip raw] (Some (line_value (strip raw))) [] false)
        as (st & -> & HG & _).
      exists st. split; [done|]. split.
      * intros g Hg. apply HG. destruct I; [apply elem_of_app; by left|done].
      * intros ->. exists (LDIFConsole.GroupEntry D M). split_and!; [|done|done].
        apply HG, elem_of_app. right. apply list_elem_of_here.
    + destruct (is_member_line attrs raw).
      * destruct (IH G (CE ++ [strip raw]) D (M ++ [line_value (strip raw)]) true)
          as (st & -> & HG & HI).
        exists st. split; [done|]. split; [done|]. intros _.
        destruct (HI eq_refl) as (g & Hg & Hd & Hm).
        exists g. split_and!; [done|done|].
        intros m Hin. apply Hm, elem_of_app. by left.
      * destruct (IH G (CE ++ [strip raw]) D M I) as (st & -> & HG & HI).
        by exists st.
Qed.

(** The invariant: [inside_group] holds only with a member collected,
    and every collected entry has a member. *)
Lemma get_group_entries_loop_members (attrs lines : list string)
  (G : list LDIFConsole.group_entry) (CE : list string) (D : option string)
  (M : list string) (I : bool) :
  (I = true → M ≠ []) →
  Forall (fun g => LDIFConsole.members g ≠ []) G →
  ∃ st, for_each (LDIFConsole.get_group_entries_body attrs) (G, CE, D, M, I) lines = Ok st ∧
    Forall (fun g => LDIFConsole.members g ≠ []) (group_entries_at_end st).
Proof.
  revert G CE D M I. induction lines as [|raw lines IH]; intros G CE D M I HI HG.
  - exists (G, CE, D, M, I). split; [done|]. simpl.
    destruct I; [|done]. apply Forall_app. split; [done|].
    constructor; [|done]. by apply HI.
  - rewrite for_each_cons, get_group_entries_body_effect, bind_Ok.
    destruct (startswith (strip raw) "dn:").
    + apply IH; [done|]. destruct I; [|done]. apply Forall_app. split; [done|].
      constructor; [|done]. by apply HI.
    + destruct (is_member_line attrs raw).
      * apply IH; [|done]. intros _. by destruct M.
      * by apply IH.
Qed.

(** The dn that the loop holds after the lines [pre]. *)
Lemma get_group_entries_loop_dn (attrs pre : list string) :
  ∃ G CE M I,
    for_each (LDIFConsole.get_group_entries_body attrs) ([], [], None, [], false) pre =
    Ok (G, CE, governing_dn pre, M, I).
Proof.
  induction pre as [|raw pre IH] using rev_ind.
  - by exists [], [], [], false.
  - destruct IH as (G & CE & M & I & IH).
    rewrite for_each_app, IH, bind_Ok, for_each_cons, get_group_entries_body_effect,
      bind_Ok, governing_dn_snoc.
    unfold next_dn. simpl.
    destruct (startswith (strip raw) "dn:"); [by eexists _, _, _, _|].
    destruct (is_member_line attrs raw); by eexists _, _, _, _.
Qed.

(** A member line has its value among the members of an entry of the
    result that carries the dn current at the line. *)
Lemma get_group_entries_member_line (content : string) (attrs pre post : list string)
  (raw : string) :
  splitlines content = pre ++ raw :: post →
  is_member_line attrs raw = true →
  ∃ gs g, LDIFConsole.get_group_entries_of content attrs = Ok gs ∧ g ∈ gs ∧
    LDIFConsole.dn g = governing_dn pre ∧
    line_value (strip raw) ∈ LDIFConsole.members g.
Proof.
  intros Hl Hraw.
  destruct (get_group_entries_loop_dn attrs pre) as (G & CE & M & I & Hpre).
  destruct (get_group_entries_loop_keeps attrs post G (CE ++ [strip raw])
              (governing_dn pre) (M ++ [line_value (strip raw)]) true)
    as (st & Hpost & _ & Hg).
  destruct (Hg eq_refl) as (g & Hin & Hd & Hm).
  exists (group_entries_at_end st), g. split_and!; [|done|done|].
  - apply get_group_entries_of_end.
    rewrite Hl, for_each_app, Hpre, bind_Ok, for_each_cons,
      get_group_entries_body_effect, bind_Ok.
    unfold is_member_line in Hraw. apply andb_true_iff in Hraw as [Hdn Hex].
    apply negb_true_iff in Hdn. rewrite Hdn.
    unfold is_member_line. rewrite Hdn, Hex. simpl. exact Hpost.
  - apply Hm, elem_of_app. right. apply list_elem_of_here.
Qed.

Lemma detect_membership_attributes_elem (content : string) (attrs : list string)
  (ns : list node) (es : list edge) :
  ∃ detected,
    LDIFConsole.detect_membership_attributes
      (LDIFConsole.Console (Some content) attrs ns es) = Ok detected ∧
    NoDup detected ∧
    ∀ a, a ∈ detected ↔
      a ∈ LDIFConsole.common_attributes ∧
      ∃ raw rest, raw ∈ splitlines content ∧ strip raw = a +:+ ":" +:+ rest.
Proof.
  destruct content as [|c content].
  - exists []. split_and!; [done|constructor|].
    intros a. split; [by intros ?%elem_of_nil|].
    intros (_ & raw & rest & Hin & _). by apply elem_of_nil in Hin.
  - assert (LDIFConsole.detect_membership_attributes
              (LDIFConsole.Console (Some (String c content)) attrs ns es) =
            detected_attributes ←
              for_each LDIFConsole.detect_body ∅ (splitlines (String c content));
            Ok (elements detected_attributes)) as -> by reflexivity.
    destruct (detect_loop (splitlines (String c content)) ∅)
      as (detected' & -> & H).
    exists (elements detected'). split_and!; [done|apply NoDup_elements|].
    intros a. rewrite elem_of_elements, H. split.
    + intros [[]%not_elem_of_empty|(Hc & raw & rest & ? & ? & _)].
      split; [done|]. by exists raw, rest.
    + intros (Hc & raw & rest & ? & ?). right. split; [done|].
      exists raw, rest. split_and!; [done|done|].
      unfold LDIFConsole.common_attributes in Hc.
      repeat (apply elem_of_cons in Hc as [->|Hc]; [done|]).
      by apply elem_of_nil in Hc.
Qed.

Lemma get_group_entries_of_returns (content : string) (attrs : list string) :
  ∃ gs, LDIFConsole.get_group_entries_of content attrs = Ok gs.
Proof.
  destruct (get_group_entries_loop_keeps attrs (splitlines content) [] [] None [] false)
    as (st & Hrun & _).
  exists (group_entries_at_end st). by apply get_group_entries_of_end.
Qed.

(** X: [get_group_entries] returns on every document and attribute
    list; every entry it returns has at least one member; and it
    returns no entry exactly when the document has no member line. *)
Theorem get_group_entries_have_members (content : string) (attrs : list string) :
  ∃ gs, LDIFConsole.get_group_entries_of content attrs = Ok gs ∧
    Forall (fun g => LDIFConsole.members g ≠ []) gs ∧
    (gs = [] ↔ Forall (fun raw => is_member_line attrs raw = false) (splitlines content)).
Proof.
  destruct (get_group_entries_loop_members attrs (splitlines content) [] [] None [] false)
    as (st & Hrun & Hall); [done|done|].
  exists (group_entries_at_end st).
  split; [by apply get_group_entries_of_end|]. split; [done|]. split.
  - intros Hnil. apply Forall_forall. intros raw Hin.
    destruct (is_member_line attrs raw) eqn:Hm; [|done]. exfalso.
    apply list_elem_of_split in Hin as (pre & post & Hl).
    destruct (get_group_entries_member_line content attrs pre post raw Hl Hm)
      as (gs & g & Hgs & Hg & _).
    rewrite (get_group_entries_of_end _ _ _ Hrun) in Hgs. injection Hgs as <-.
    rewrite Hnil in Hg. by apply elem_of_nil in Hg.
  - intros Hnone. clear Hall. revert Hrun.
    assert (∀ lines CE D,
      Forall (fun raw => is_member_line attrs raw = false) lines →
      ∃ CE' D', for_each (LDIFConsole.get_group_entries_body attrs)
                  ([], CE, D, [], false) lines = Ok ([], CE', D', [], false)) as Hloop.
    { clear. induction lines as [|raw lines IH]; intros CE D Hnone.
      - by exists CE, D.
      - apply Forall_cons in Hnone as [Hraw Hnone].
        rewrite for_each_cons, get_group_entries_body_effect, bind_Ok, Hraw.
        destruct (startswith (strip raw) "dn:"); by apply IH. }
    destruct (Hloop _ [] None Hnone) as (CE' & D' & ->). by intros [= <-].
Qed.

(** X: the preview listing covers the graph: every edge that
    [parse_ldif] returns has, in the list that [get_group_entries]
    returns for the same document and attributes, an entry with the
    edge's target as its dn and the edge's source among its members. *)
Theorem parse_ldif_edges_in_group_entries (content : string) (attrs : list string) :
  ∃ ns es gs, parse_ldif content attrs = Ok (ns, es) ∧
    LDIFConsole.get_group_entries_of content attrs = Ok gs ∧
    ∀ e, e ∈ es → ∃ g, g ∈ gs ∧ LDIFConsole.dn g = e.1.2 ∧
                        e.1.1 ∈ LDIFConsole.members g.
Proof.
  destruct (parse_ldif_edges content attrs) as (ns & es & Hp & He).
  destruct (get_group_entries_of_returns content attrs) as (gs & Hgs).
  exists ns, es, gs. split_and!; [done|done|].
  intros e (pre & raw & post & attr & Hl & Hr & Hin & _ & Hsw & _ & ->)%He.
  destruct (get_group_entries_member_line content attrs pre post raw Hl)
    as (gs' & g & Hgs' & Hg & Hd & Hm).
  { unfold is_member_line. unfold reaches_membership in Hr.
    apply andb_true_iff in Hr as [Hr _]. apply andb_true_iff in Hr as [Hr _].
    apply andb_true_iff in Hr as [Hr _]. rewrite Hr. simpl.
    apply existsb_exists. exists attr. split; [by apply list_elem_of_In|done]. }
  rewrite Hgs in Hgs'. injection Hgs' as <-. by exists g.
Qed.

(** ** [view_group] *)

Lemma view_group_loaded (self : LDIFConsole.console) (group_dn : string) :
  truthy (LDIFConsole.ldif_content self) = true →
  LDIFConsole.view_group self group_dn =
  view_group_from group_dn [] (splitlines (default "" (LDIFConsole.ldif_content self))).
Proof. intros H. unfold LDIFConsole.view_group. by rewrite H. Qed.

Lemma entry_matches_cons (h : string) (t : list string) (group_dn : string) :
  LDIFConsole.entry_matches (h :: t) group_dn =
  if str_in ":" h then Ok (bool_decide (line_value h = group_dn))
  else Raise IndexError.
Proof.
  unfold LDIFConsole.entry_matches, line_value, split_colon_1. simpl.
  destruct (str_in ":" h) eqn:Hc.
  - apply partition_colon_some in Hc as [v Hv].
    destruct (partition_colon h) as [a b]. simpl in Hv. by subst.
  - destruct (partition_colon h) as [a [b|]] eqn:Hp; [|done].
    assert (is_Some (partition_colon h).2) as Hs%partition_colon_some
      by (rewrite Hp; eauto).
    congruence.
Qed.

Lemma view_group_from_cons (group_dn : string) (cur : list string) (raw : string)
  (rest : list string) :
  view_group_from group_dn cur (raw :: rest) =
  if startswith (strip raw) "dn:" then
    found ← LDIFConsole.entry_matches cur group_dn;
    if (found : bool)
    then found' ← LDIFConsole.entry_matches cur group_dn;
         Ok (LDIFConsole.GroupDetails group_dn cur)
    else view_group_from group_dn [strip raw] rest
  else view_group_from group_dn (cur ++ [strip raw]) rest.
Proof.
  unfold view_group_from. simpl.
  destruct (startswith (strip raw) "dn:"); [|done].
  destruct (LDIFConsole.entry_matches cur group_dn) as [[]|] eqn:Hm; simpl;
    [|done|done].
  by rewrite Hm.
Qed.

Lemma view_group_from_nil (group_dn : string) (cur : list string) :
  view_group_from group_dn cur [] =
  found ← LDIFConsole.entry_matches cur group_dn;
  Ok (if (found : bool) then LDIFConsole.GroupDetails group_dn cur
      else LDIFConsole.GroupNotFound group_dn).
Proof.
  unfold view_group_from. simpl.
  by destruct (LDIFConsole.entry_matches cur group_dn) as [[]|].
Qed.

(** Once the first line kept has no colon, [IndexError] is raised, at
    the next [dn:] line or after the last line. *)
Lemma view_group_from_raises (group_dn h : string) (t lines : list string) :
  str_in ":" h = false →
  view_group_from group_dn (h :: t) lines = Raise IndexError.
Proof.
  intros Hc. revert t. induction lines as [|raw rest IH]; intros t.
  - by rewrite view_group_from_nil, entry_matches_cons, Hc.
  - rewrite view_group_from_cons.
    destruct (startswith (strip raw) "dn:"); [|apply IH].
    by rewrite entry_matches_cons, Hc.
Qed.

Lemma startswith_dn_colon (line : string) :
  startswith line "dn:" = true → str_in ":" line = true.
Proof. apply (startswith_has_colon line "dn"). Qed.

(** While the first line kept has a colon, nothing is raised. *)
Lemma view_group_from_returns (group_dn h : string) (t lines : list string) :
  str_in ":" h = true →
  ∃ out, view_group_from group_dn (h :: t) lines = Ok out.
Proof.
  intros Hc. revert h t Hc. induction lines as [|raw rest IH]; intros h t Hc.
  - rewrite view_group_from_nil, entry_matches_cons, Hc. by eexists.
  - rewrite view_group_from_cons.
    destruct (startswith (strip raw) "dn:") eqn:Hdn; [|by apply IH].
    rewrite entry_matches_cons, Hc. simpl.
    destruct (bool_decide _); simpl; [by eexists|].
    apply IH. by apply startswith_dn_colon.
Qed.

(** X: [view_group] on a loaded document raises [IndexError] exactly
    when the first line of the document, trimmed, has no colon (a
    comment, a blank line, bare text); otherwise it returns. *)
Theorem view_group_raises_iff (self : LDIFConsole.console) (group_dn : string) :
  LDIFConsole.view_group self group_dn = Raise IndexError ↔
  ∃ content first rest, LDIFConsole.ldif_content self = Some content ∧
    splitlines content = first :: rest ∧ str_in ":" (strip first) = false.
Proof.
  destruct (truthy (LDIFConsole.ldif_content self)) eqn:Htr.
  - rewrite (view_group_loaded _ _ Htr).
    destruct (LDIFConsole.ldif_content self) as [content|]; [|done]. simpl.
    destruct (splitlines content) as [|first rest] eqn:Hl.
    { split; [done|].
      intros (? & ? & ? & [= <-] & Hl' & _). by rewrite Hl in Hl'. }
    rewrite view_group_from_cons. simpl.
    assert (view_group_from group_dn [strip first] rest = Raise IndexError ↔
            str_in ":" (strip first) = false) as Hiff.
    { destruct (str_in ":" (strip first)) eqn:Hc.
      - destruct (view_group_from_returns group_dn _ [] rest Hc) as (out & ->). done.
      - by rewrite view_group_from_raises. }
    destruct (startswith (strip first) "dn:") eqn:Hdn.
    + pose proof (startswith_dn_colon _ Hdn) as Hc.
      destruct (view_group_from_returns group_dn _ [] rest Hc) as (out & ->).
      split; [done|].
      intros (? & ? & ? & [= <-] & Hl' & Hc'). rewrite Hl in Hl'.
      injection Hl' as <- <-. congruence.
    + rewrite Hiff. split.
      * intros Hc. by exists content, first, rest.
      * intros (? & ? & ? & [= <-] & Hl' & Hc'). rewrite Hl in Hl'.
        by injection Hl' as <- <-.
  - unfold LDIFConsole.view_group. rewrite Htr. simpl.
    split; [done|]. intros (content & ? & ? & Hc & Hl & _).
    rewrite Hc in Htr. destruct content; [done|done].
Qed.

Lemma splitlines_nonempty_truthy (content : string) :
  splitlines content ≠ [] → truthy (Some content) = true.
Proof. by destruct content. Qed.

(** The loop passes over entries whose dn is not the one looked for. *)
Lemma view_group_from_skip (group_dn h : string) (t pre rest : list string) :
  str_in ":" h = true →
  line_value h ≠ group_dn →
  Forall (fun l => startswith (strip l) "dn:" &&
                   bool_decide (line_value (strip l) = group_dn) = false) pre →
  ∃ h' t', str_in ":" h' = true ∧ line_value h' ≠ group_dn ∧
    view_group_from group_dn (h :: t) (pre ++ rest) =
    view_group_from group_dn (h' :: t') rest.
Proof.
  intros Hc Hv Hpre. revert h t Hc Hv.
  induction Hpre as [|raw pre Hraw _ IH]; intros h t Hc Hv.
  - by exists h, t.
  - simpl. rewrite view_group_from_cons.
    destruct (startswith (strip raw) "dn:") eqn:Hdn.
    + rewrite entry_matches_cons, Hc, bind_Ok.
      rewrite bool_decide_eq_false_2 by done.
      simpl in Hraw. apply bool_decide_eq_false in Hraw.
      apply IH; [by apply startswith_dn_colon|done].
    + by apply (IH h (t ++ [strip raw])).
Qed.

(** The loop collects the lines of an entry, trimmed. *)
Lemma view_group_from_body (group_dn : string) (cur body rest : list string) :
  Forall (fun l => startswith (strip l) "dn:" = false) body →
  view_group_from group_dn cur (body ++ rest) =
  view_group_from group_dn (cur ++ map strip body) rest.
Proof.
  intros Hbody. revert cur. induction Hbody as [|raw body Hraw _ IH]; intros cur.
  - simpl. by rewrite app_nil_r.
  - simpl. rewrite view_group_from_cons, Hraw, IH. by rewrite <- app_assoc.
Qed.

(** The loop entered with no line kept, on a document that starts with
    entries whose dn is not the one looked for. *)
Lemma view_group_from_start (group_dn : string) (pre rest : list string) (dnl : string) :
  pre = [] ∨ (∃ d pre', pre = d :: pre' ∧ startswith (strip d) "dn:" = true) →
  Forall (fun l => startswith (strip l) "dn:" &&
                   bool_decide (line_value (strip l) = group_dn) = false) pre →
  startswith (strip dnl) "dn:" = true →
  view_group_from group_dn [] (pre ++ dnl :: rest) =
  view_group_from group_dn [strip dnl] rest.
Proof.
  intros [->|(d & pre' & -> & Hd)] Hpre Hdn.
  - simpl. by rewrite view_group_from_cons, Hdn.
  - simpl. rewrite view_group_from_cons, Hd. simpl.
    apply Forall_cons in Hpre as [Hd' Hpre]. rewrite Hd in Hd'. simpl in Hd'.
    apply bool_decide_eq_false in Hd'.
    destruct (view_group_from_skip group_dn (strip d) [] pre' (dnl :: rest))
      as (h' & t' & Hc' & Hv' & ->); [by apply startswith_dn_colon|done|done|].
    rewrite view_group_from_cons, Hdn, entry_matches_cons, Hc', bind_Ok.
    by rewrite bool_decide_eq_false_2.
Qed.

(** X: on a document that starts with a [dn:] line, [view_group] shows
    the first entry whose dn is the one asked for: its [dn:] line and
    the lines up to the next [dn:] line, all trimmed. *)
Theorem view_group_shows_first_match (self : LDIFConsole.console)
  (content group_dn dnl : string) (pre body post : list string) :
  LDIFConsole.ldif_content self = Some content →
  splitlines content = pre ++ dnl :: body ++ post →
  pre = [] ∨ (∃ d pre', pre = d :: pre' ∧ startswith (strip d) "dn:" = true) →
  Forall (fun l => startswith (strip l) "dn:" &&
                   bool_decide (line_value (strip l) = group_dn) = false) pre →
  startswith (strip dnl) "dn:" = true →
  line_value (strip dnl) = group_dn →
  Forall (fun l => startswith (strip l) "dn:" = false) body →
  post = [] ∨ (∃ d post', post = d :: post' ∧ startswith (strip d) "dn:" = true) →
  LDIFConsole.view_group self group_dn =
  Ok (LDIFConsole.GroupDetails group_dn (strip dnl :: map strip body)).
Proof.
  intros Hc Hl Hstart Hpre Hdn Hv Hbody Hpost.
  rewrite view_group_loaded; rewrite Hc; simpl.
  2:{ apply splitlines_nonempty_truthy. rewrite Hl. by destruct pre. }
  rewrite Hl, view_group_from_start, view_group_from_body by done.
  pose proof (startswith_dn_colon _ Hdn) as Hcolon.
  change ([strip dnl] ++ map strip body) with (strip dnl :: map strip body).
  destruct Hpost as [->|(d & post' & -> & Hd)].
  - rewrite view_group_from_nil, entry_matches_cons, Hcolon, bind_Ok.
    by rewrite bool_decide_eq_true_2.
  - rewrite view_group_from_cons, Hd, entry_matches_cons, Hcolon, bind_Ok.
    by rewrite bool_decide_eq_true_2.
Qed.

Lemma view_group_shows_first_match_witness :
  LDIFConsole.view_group
    (LDIFConsole.Console
       (Some (unlines [ "dn: cn=a,dc=x"; "cn: a"; "dn: cn=b,dc=x"; "  cn: b"; "";
                        "dn: cn=b,dc=x"; "cn: other" ]))
       ["member"] [] [])
    "cn=b,dc=x" =
  Ok (LDIFConsole.GroupDetails "cn=b,dc=x" [ "dn: cn=b,dc=x"; "cn: b"; "" ]).
Proof.
  apply (view_group_shows_first_match _
           (unlines [ "dn: cn=a,dc=x"; "cn: a"; "dn: cn=b,dc=x"; "  cn: b"; "";
                      "dn: cn=b,dc=x"; "cn: other" ])
           "cn=b,dc=x" "dn: cn=b,dc=x" [ "dn: cn=a,dc=x"; "cn: a" ] [ "  cn: b"; "" ]
           [ "dn: cn=b,dc=x"; "cn: other" ]).
  - reflexivity.
  - reflexivity.
  - right. by eexists _, _.
  - repeat constructor.
  - reflexivity.
  - reflexivity.
  - repeat constructor.
  - right. by eexists _, _.
Defined.

(** X: on a document that starts with a [dn:] line and has no [dn:]
    line with the dn asked for, [view_group] reports that the group is
    not found. *)
Theorem view_group_not_found (self : LDIFConsole.console)
  (content group_dn d : string) (rest : list string) :
  LDIFConsole.ldif_content self = Some content →
  splitlines content = d :: rest →
  startswith (strip d) "dn:" = true →
  Forall (fun l => startswith (strip l) "dn:" &&
                   bool_decide (line_value (strip l) = group_dn) = false) (d :: rest) →
  LDIFConsole.view_group self group_dn = Ok (LDIFConsole.GroupNotFound group_dn).
Proof.
  intros Hc Hl Hd Hall.
  rewrite view_group_loaded; rewrite Hc; simpl.
  2:{ apply splitlines_nonempty_truthy. by rewrite Hl. }
  rewrite Hl, view_group_from_cons, Hd. simpl.
  apply Forall_cons in Hall as [Hd' Hrest]. rewrite Hd in Hd'. simpl in Hd'.
  apply bool_decide_eq_false in Hd'.
  destruct (view_group_from_skip group_dn (strip d) [] rest [])
    as (h' & t' & Hc' & Hv' & Heq); [by apply startswith_dn_colon|done|done|].
  rewrite app_nil_r in Heq. rewrite Heq, view_group_from_nil.
  rewrite entry_matches_cons, Hc', bind_Ok. by rewrite bool_decide_eq_false_2.
Qed.

Lemma view_group_not_found_witness :
  LDIFConsole.view_group
    (LDIFConsole.Console (Some (unlines [ "dn: cn=a,dc=x"; "cn: b"; "dn: cn=c,dc=x" ]))
       ["member"] [] [])
    "cn=b,dc=x" =
  Ok (LDIFConsole.GroupNotFound "cn=b,dc=x").
Proof.
  apply (view_group_not_found _
           (unlines [ "dn: cn=a,dc=x"; "cn: b"; "dn: cn=c,dc=x" ])
           "cn=b,dc=x" "dn: cn=a,dc=x" [ "cn: b"; "dn: cn=c,dc=x" ]).
  - reflexivity.
  - reflexivity.
  - reflexivity.
  - repeat constructor.
Defined.

(** ** [set_membership_attributes] *)

Lemma split_on_nonempty (sep : ascii) (s : string) : split_on sep s ≠ [].
Proof.
  destruct s as [|c s]; [done|]. simpl.
  destruct (decide (c = sep)); [done|]. by destruct (split_on sep s).
Qed.

Lemma split_on_fields (sep : ascii) (s : string) :
  Forall (fun field => str_in (String sep "") field = false) (split_on sep s).
Proof.
  assert (∀ c f, c ≠ sep → str_in (String sep "") f = false →
                 str_in (String sep "") (String c f) = false) as Hcons.
  { intros c f Hne Hf. unfold str_in. fold str_in. rewrite Hf.
    unfold startswith. by rewrite decide_False by done. }
  induction s as [|c s IH]; [by repeat constructor|]. simpl.
  destruct (decide (c = sep)) as [->|Hne]; [by constructor|].
  destruct (split_on sep s) as [|f fs]; [by repeat constructor; apply Hcons|].
  apply Forall_cons in IH as [Hf Hfs]. constructor; [by apply Hcons|done].
Qed.

Lemma join_with_cons (sep : ascii) (c : ascii) (f : string) (fs : list string) :
  join_with (String sep "") (String c f :: fs) =
  String c (join_with (String sep "") (f :: fs)).
Proof. by destruct fs. Qed.

Lemma join_split_on (sep : ascii) (s : string) :
  join_with (String sep "") (split_on sep s) = s.
Proof.
  induction s as [|c s IH]; [done|]. simpl.
  destruct (decide (c = sep)) as [->|Hne].
  - pose proof (split_on_nonempty sep s) as Hne.
    destruct (split_on sep s) as [|f fs]; [done|].
    change (join_with (String sep "") ("" :: f :: fs))
      with (String sep (join_with (String sep "") (f :: fs))).
    by rewrite IH.
  - pose proof (split_on_nonempty sep s) as Hs.
    destruct (split_on sep s) as [|f fs]; [done|].
    by rewrite join_with_cons, IH.
Qed.

(** X: [set_membership_attributes] with no argument or an empty one
    leaves the console as it is; with a text it stores the fields of
    the text between the commas, untrimmed, and touches nothing else:
    the fields are at least one, none holds a comma, and joined by
    commas they give the text back. *)
Theorem set_membership_attributes_fields (self : LDIFConsole.console) (text : string) :
  LDIFConsole.set_membership_attributes self None = (self, LDIFConsole.SetAttrsUsage) ∧
  LDIFConsole.set_membership_attributes self (Some "") = (self, LDIFConsole.SetAttrsUsage) ∧
  (text ≠ "" →
   ∃ fields,
     LDIFConsole.set_membership_attributes self (Some text) =
     (LDIFConsole.Console (LDIFConsole.ldif_content self) fields
        (LDIFConsole.nodes self) (LDIFConsole.edges self),
      LDIFConsole.AttrsSet fields) ∧
     fields ≠ [] ∧
     Forall (fun field => str_in "," field = false) fields ∧
     join_with "," fields = text).
Proof.
  split_and!; [done|done|]. intros Hne.
  exists (split_on ","%char text). split_and!.
  - unfold LDIFConsole.set_membership_attributes. by destruct text.
  - apply split_on_nonempty.
  - apply split_on_fields.
  - apply join_split_on.
Qed.

Lemma set_membership_attributes_fields_witness :
  ∃ fields,
    LDIFConsole.set_membership_attributes LDIFConsole.init (Some "member, uniqueMember,") =
    (LDIFConsole.Console None fields [] [], LDIFConsole.AttrsSet fields) ∧
    fields ≠ [] ∧
    join_with "," fields = "member, uniqueMember,".
Proof.
  destruct (set_membership_attributes_fields LDIFConsole.init "member, uniqueMember,")
    as (_ & _ & Hset).
  destruct Hset as (fields & Heq & Hne & _ & Hjoin); [discriminate|].
  exists fields. split_and!; [exact Heq|exact Hne|exact Hjoin].
Defined.

(** ** The exported tables *)

Lemma str_app_nil_r (s : string) : s +:+ "" = s.
Proof. induction s as [|c s IH]; [done|]. rewrite str_app_cons. by f_equal. Qed.

Lemma linebreak_free_app (a b : string) :
  linebreak_free (a +:+ b) = linebreak_free a && linebreak_free b.
Proof.
  induction a as [|c a IH]; [done|]. rewrite str_app_cons. simpl.
  by rewrite IH, andb_assoc.
Qed.

Lemma splitlines_line (l rest : string) :
  linebreak_free l = true →
  splitlines (l +:+ newline +:+ rest) = l :: splitlines rest.
Proof.
  induction l as [|c l IH]; [done|]. rewrite str_app_cons. simpl.
  intros [Hc Hl]%andb_true_iff. apply negb_true_iff in Hc. rewrite Hc.
  by rewrite (IH Hl).
Qed.

Lemma splitlines_unlines (ls : list string) :
  Forall (fun l => linebreak_free l = true) ls → splitlines (unlines ls) = ls.
Proof.
  induction 1 as [|l ls Hl _ IH]; [done|]. simpl.
  by rewrite splitlines_line, IH.
Qed.

Lemma unlines_snoc (ls : list string) (l : string) :
  unlines (ls ++ [l]) = unlines ls +:+ l +:+ newline.
Proof.
  induction ls as [|x ls IH]; simpl.
  - by rewrite str_app_nil_r.
  - by rewrite IH, !str_app_assoc.
Qed.

Lemma fold_left_rows {A : Type} (row line : A → string) (xs : list A)
  (ls : list string) :
  (∀ x, row x = line x +:+ newline) →
  fold_left (fun written x => written +:+ row x) xs (unlines ls) =
  unlines (ls ++ map line xs).
Proof.
  intros Hrow. revert ls. induction xs as [|x xs IH]; intros ls; simpl.
  - by rewrite app_nil_r.
  - rewrite Hrow, <- unlines_snoc, IH, <- app_assoc. done.
Qed.

Lemma nodes_table_unlines (ns : list node) :
  LDIFConsole.nodes_table ns = unlines ("Id,Label,Type" :: map node_line ns).
Proof.
  unfold LDIFConsole.nodes_table.
  change ("Id,Label,Type" +:+ newline) with (unlines ["Id,Label,Type"]).
  apply (fold_left_rows LDIFConsole.node_row node_line ns ["Id,Label,Type"]).
  intros n. unfold LDIFConsole.node_row, node_line.
  by rewrite !str_app_assoc.
Qed.

Lemma edges_table_unlines (es : list edge) :
  LDIFConsole.edges_table es = unlines ("Source,Target,Relation" :: map edge_line es).
Proof.
  unfold LDIFConsole.edges_table.
  change ("Source,Target,Relation" +:+ newline) with (unlines ["Source,Target,Relation"]).
  apply (fold_left_rows LDIFConsole.edge_row edge_line es ["Source,Target,Relation"]).
  intros e. unfold LDIFConsole.edge_row, edge_line.
  by rewrite !str_app_assoc.
Qed.

(** The lines of a text hold no line boundary. *)
Lemma splitlines_linebreak_free (s : string) :
  Forall (fun l => linebreak_free l = true) (splitlines s).
Proof.
  assert (Forall (fun l => linebreak_free l = true) (splitlines s) ∧
          ∀ c, Forall (fun l => linebreak_free l = true) (splitlines (String c s)))
    as [H _]; [|done].
  induction s as [|c' s [IH1 IH2]].
  - split; [constructor|]. intros c. simpl.
    destruct (is_linebreak c) eqn:Hc.
    + destruct c as [[] [] [] [] [] [] [] []]; by repeat constructor.
    + repeat constructor. simpl. by rewrite Hc.
  - split; [apply IH2|]. intros c.
    change (splitlines (String c (String c' s))) with
      (if is_linebreak c then
         match c, String c' s with
         | "013"%char, String "010"%char s'' => EmptyString :: splitlines s''
         | _, _ => EmptyString :: splitlines (String c' s)
         end
       else
         match splitlines (String c' s) with
         | [] => [String c EmptyString]
         | l :: ls => String c l :: ls
         end).
    destruct (is_linebreak c) eqn:Hc.
    + assert (Forall (fun l => linebreak_free l = true) ("" :: splitlines s)) as H1
        by (by constructor).
      assert (Forall (fun l => linebreak_free l = true) ("" :: splitlines (String c' s)))
        as H2 by (constructor; [done|apply IH2]).
      destruct c as [[] [] [] [] [] [] [] []]; try exact H2;
        destruct c' as [[] [] [] [] [] [] [] []]; try exact H2; exact H1.
    + specialize (IH2 c'). destruct (splitlines (String c' s)) as [|l ls].
      * repeat constructor. simpl. by rewrite Hc.
      * apply Forall_cons in IH2 as [Hl Hls]. constructor; [|done].
        simpl. by rewrite Hc, Hl.
Qed.

Lemma lstrip_linebreak_free (s : string) :
  linebreak_free s = true → linebreak_free (lstrip s) = true.
Proof.
  induction s as [|c s IH]; [done|]. simpl.
  intros [Hc Hs]%andb_true_iff. destruct (isspace c); [by apply IH|].
  simpl. by rewrite Hc, Hs.
Qed.

Lemma rstrip_linebreak_free (s : string) :
  linebreak_free s = true → linebreak_free (rstrip s) = true.
Proof.
  induction s as [|c s IH]; [done|]. simpl.
  intros [Hc Hs]%andb_true_iff. specialize (IH Hs).
  destruct (rstrip s) as [|c' r].
  - destruct (isspace c); [done|]. simpl. by rewrite Hc.
  - change (linebreak_free (String c (String c' r)))
      with (negb (is_linebreak c) && linebreak_free (String c' r)).
    by rewrite Hc, IH.
Qed.

Lemma strip_linebreak_free (s : string) :
  linebreak_free s = true → linebreak_free (strip s) = true.
Proof. intros H. by apply rstrip_linebreak_free, lstrip_linebreak_free. Qed.

Lemma partition_colon_linebreak_free (s : string) :
  linebreak_free s = true →
  linebreak_free (default "" (partition_colon s).2) = true.
Proof.
  induction s as [|c s IH]; [done|]. simpl.
  intros [Hc Hs]%andb_true_iff.
  destruct (decide (c = ":"%char)); [done|].
  destruct (partition_colon s) as [a b]. by apply IH.
Qed.

Lemma line_value_linebreak_free (s : string) :
  linebreak_free s = true → linebreak_free (line_value s) = true.
Proof.
  intros H. by apply strip_linebreak_free, partition_colon_linebreak_free.
Qed.

Lemma dn_above_linebreak_free (above : list string) (d : string) :
  Forall (fun l => linebreak_free l = true) above →
  dn_above above = Some d → linebreak_free d = true.
Proof.
  induction 1 as [|l above Hl _ IH]; [done|]. simpl.
  destruct (startswith (strip l) "dn:"); [|done].
  intros [= <-]. by apply (line_value_linebreak_free (strip l)), strip_linebreak_free.
Qed.

Lemma governing_dn_linebreak_free (lines pre post : list string) (raw : string) :
  Forall (fun l => linebreak_free l = true) lines →
  lines = pre ++ raw :: post →
  linebreak_free (LDIFConsole.format (governing_dn pre)) = true.
Proof.
  intros Hall ->. destruct (governing_dn pre) as [d|] eqn:Hd; [|done].
  apply (dn_above_linebreak_free (rev pre) d); [|done].
  apply Forall_forall. intros l Hin%list_elem_of_In%in_rev.
  apply (proj1 (Forall_forall _ _) Hall), elem_of_app. left.
  by apply list_elem_of_In.
Qed.

Lemma node_line_linebreak_free (n : node) :
  linebreak_free (LDIFConsole.format n.1.1) = true →
  linebreak_free n.1.2 = true →
  linebreak_free n.2 = true →
  linebreak_free (node_line n) = true.
Proof.
  intros H1 H2 H3. unfold node_line.
  rewrite !linebreak_free_app, H1, H2, H3. reflexivity.
Qed.

Lemma edge_line_linebreak_free (e : edge) :
  linebreak_free e.1.1 = true →
  linebreak_free (LDIFConsole.format e.1.2) = true →
  linebreak_free e.2 = true →
  linebreak_free (edge_line e) = true.
Proof.
  intros H1 H2 H3. unfold edge_line.
  rewrite !linebreak_free_app, H1, H2, H3. reflexivity.
Qed.

(** X: whatever the document and the attributes, the tables that
    [export] writes for the result of [parse_ldif] read back line by
    line as the header followed by one row for each node, and one for
    each edge, in the order of the lists: no value of the result holds
    a line boundary. *)
Theorem exported_tables_one_row_each (content : string) (attrs : list string) :
  ∃ ns es, parse_ldif content attrs = Ok (ns, es) ∧
    splitlines (LDIFConsole.nodes_table ns) = "Id,Label,Type" :: map node_line ns ∧
    splitlines (LDIFConsole.edges_table es) =
      "Source,Target,Relation" :: map edge_line es.
Proof.
  destruct (parse_ldif_nodes content attrs) as (ns & es & Hp & _ & Hn).
  destruct (parse_ldif_edges content attrs) as (ns' & es' & Hp' & He).
  rewrite Hp in Hp'. injection Hp' as <- <-.
  pose proof (splitlines_linebreak_free content) as Hfree.
  exists ns, es. split_and!; [done|..].
  - rewrite nodes_table_unlines. apply splitlines_unlines.
    constructor; [done|]. apply Forall_forall. intros l Hin%list_elem_of_In.
    apply in_map_iff in Hin as (n & <- & Hin%list_elem_of_In).
    apply Hn in Hin as (pre & raw & post & Hl & Hadd).
    assert (linebreak_free (strip raw) = true) as Hraw.
    { apply strip_linebreak_free, (proj1 (Forall_forall _ _) Hfree).
      rewrite Hl. apply elem_of_app. right. apply list_elem_of_here. }
    pose proof (governing_dn_linebreak_free _ _ _ _ Hfree Hl) as Hd.
    destruct Hadd as [(v & Hv & _ & ->)|(v & Hv & _ & ->)];
      rewrite Hv, linebreak_free_app in Hraw;
      apply andb_true_iff in Hraw as [_ Hraw];
      (apply node_line_linebreak_free;
       [done|by apply strip_linebreak_free|done]).
  - rewrite edges_table_unlines. apply splitlines_unlines.
    constructor; [done|]. apply Forall_forall. intros l Hin%list_elem_of_In.
    apply in_map_iff in Hin as (e & <- & Hin%list_elem_of_In).
    apply He in Hin as (pre & raw & post & attr & Hl & _ & _ & _ & _ & _ & ->).
    assert (linebreak_free (strip raw) = true) as Hraw.
    { apply strip_linebreak_free, (proj1 (Forall_forall _ _) Hfree).
      rewrite Hl. apply elem_of_app. right. apply list_elem_of_here. }
    pose proof (governing_dn_linebreak_free _ _ _ _ Hfree Hl) as Hd.
    apply edge_line_linebreak_free; [by apply line_value_linebreak_free|done|done].
Qed.

(** ** [load_ldif] *)

Lemma getitem_int_in_range {A : Type} (l : list A) (i : nat) :
  i < length l → ∃ x, getitem_int l (Z.of_nat i) = Ok x.
Proof.
  intros Hi. unfold getitem_int. cbv zeta.
  rewrite (bool_decide_eq_false_2 (Z.of_nat i < 0)%Z) by lia.
  rewrite (bool_decide_eq_true_2 (0 ≤ Z.of_nat i)%Z) by lia.
  rewrite (bool_decide_eq_true_2 (Z.of_nat i < Z.of_nat (length l))%Z) by lia.
  simpl. rewrite Nat2Z.id. unfold getitem.
  destruct (lookup_lt_is_Some_2 l i Hi) as [x ->]. by exists x.
Qed.

Lemma member_example_body_returns (attrs : list string)
  (printed : list LDIFConsole.load_message) (idx : nat) (member : string) :
  attrs ≠ [] →
  ∃ examples,
    LDIFConsole.member_example_body attrs printed (idx, member) =
    Ok (printed ++ examples) ∧
    Forall not_error examples.
Proof.
  intros Hne. unfold LDIFConsole.member_example_body.
  destruct (bool_decide (idx = 0) || bool_decide (idx < length attrs)) eqn:Hc.
  - assert (Z.min (Z.of_nat idx) (Z.of_nat (length attrs) - 1) =
            Z.of_nat (Nat.min idx (length attrs - 1))) as ->
      by (destruct attrs; simpl; [done|lia]).
    destruct (getitem_int_in_range attrs (Nat.min idx (length attrs - 1)))
      as [x ->]; [destruct attrs; simpl; [done|lia]|].
    rewrite bind_Ok. exists [LDIFConsole.MemberExample x member].
    split; [done|]. by repeat constructor.
  - exists []. split; [by rewrite app_nil_r|constructor].
Qed.

(** With a non-empty attribute list the loop over the member lines
    returns, and prints member examples only. *)
Lemma member_examples_return (attrs : list string) (items : list (nat * string))
  (printed : list LDIFConsole.load_message) :
  attrs ≠ [] →
  ∃ examples,
    for_each (LDIFConsole.member_example_body attrs) printed items =
    Ok (printed ++ examples) ∧
    Forall not_error examples.
Proof.
  intros Hne. revert printed.
  induction items as [|[idx member] items IH]; intros printed.
  - exists []. split; [by rewrite app_nil_r|constructor].
  - rewrite for_each_cons.
    destruct (member_example_body_returns attrs printed idx member Hne)
      as (ex1 & -> & H1).
    rewrite bind_Ok. destruct (IH (printed ++ ex1)) as (ex2 & -> & H2).
    exists (ex1 ++ ex2). split; [by rewrite <- app_assoc|].
    by apply Forall_app.
Qed.

(** When something is detected, the listing of the detected attributes
    is not empty: [member_lines] is bound. *)
Lemma detected_gives_group_entries (content : string) (attrs : list string)
  (ns : list node) (es : list edge) (detected : list string) :
  LDIFConsole.detect_membership_attributes
    (LDIFConsole.Console (Some content) attrs ns es) = Ok detected →
  detected ≠ [] →
  ∃ g gs, LDIFConsole.get_group_entries_of content detected = Ok (g :: gs).
Proof.
  intros Hd Hne.
  destruct (detect_membership_attributes_elem content attrs ns es)
    as (detected' & Hd' & _ & Hiff).
  rewrite Hd in Hd'. injection Hd' as <-.
  destruct detected as [|a l]; [done|].
  destruct (proj1 (Hiff a)) as (Hc & raw & rest & Hin & Hraw);
    [apply list_elem_of_here|].
  apply list_elem_of_split in Hin as (pre & post & Hl).
  destruct (get_group_entries_member_line content (a :: l) pre post raw Hl)
    as (gs & g & Hgs & Hg & _).
  - unfold is_member_line. rewrite Hraw. apply andb_true_iff. split.
    + unfold LDIFConsole.common_attributes in Hc.
      repeat (apply elem_of_cons in Hc as [->|Hc]; [done|]).
      by apply elem_of_nil in Hc.
    + simpl. rewrite <- str_app_assoc, startswith_app. done.
  - rewrite Hgs. destruct gs as [|g' gs]; [by apply elem_of_nil in Hg|].
    by exists g', gs.
Qed.

Lemma load_ldif_enter_cases (self : LDIFConsole.console)
  (printed : list LDIFConsole.load_message) (inputs : list string) :
  LDIFConsole.load_ldif_enter self printed inputs =
  match inputs with
  | [] => (self, printed ++ [LDIFConsole.AskEnter; LDIFConsole.ErrorOccurred LDIFConsole.EOFError], [])
  | user_input :: inputs' =>
      (LDIFConsole.Console (LDIFConsole.ldif_content self)
         (split_on ","%char (strip user_input))
         (LDIFConsole.nodes self) (LDIFConsole.edges self),
       (printed ++ [LDIFConsole.AskEnter]) ++
         [LDIFConsole.Using (split_on ","%char (strip user_input)); LDIFConsole.Ready],
       inputs')
  end.
Proof. by destruct inputs. Qed.

(** [load_ldif] on a file that can be opened, from a console with at
    least one attribute: up to the first [input], nothing is raised. *)
Lemma load_ldif_opened (self : LDIFConsole.console) (path content : string)
  (files : gmap string string) (unreadable : gmap string LDIFConsole.exception)
  (inputs : list string) :
  path ≠ "" →
  files !! path = Some content →
  LDIFConsole.membership_attributes self ≠ [] →
  ∃ detected printed,
    LDIFConsole.detect_membership_attributes
      (LDIFConsole.Console (Some content) (LDIFConsole.membership_attributes self)
         (LDIFConsole.nodes self) (LDIFConsole.edges self)) = Ok detected ∧
    Forall not_error printed ∧
    LDIFConsole.load_ldif self (Some path) files unreadable inputs =
    let self1 := LDIFConsole.Console (Some content) (LDIFConsole.membership_attributes self)
                   (LDIFConsole.nodes self) (LDIFConsole.edges self) in
    match detected with
    | [] => LDIFConsole.load_ldif_enter self1 printed inputs
    | _ :: _ =>
        match inputs with
        | [] => (self1, printed ++ [LDIFConsole.ErrorOccurred LDIFConsole.EOFError], [])
        | answer :: inputs' =>
            if bool_decide (lower (strip answer) = "y")
            then LDIFConsole.load_ldif_ready self1 detected printed inputs'
            else LDIFConsole.load_ldif_enter self1 printed inputs'
        end
    end.
Proof.
  intros Hpath Hfile Hattrs.
  destruct (detect_membership_attributes_elem content
              (LDIFConsole.membership_attributes self) (LDIFConsole.nodes self)
              (LDIFConsole.edges self)) as (detected & Hd & _ & _).
  exists detected.
  assert (truthy (Some path) = true) as Htr by (by destruct path).
  destruct detected as [|a l].
  - exists ([LDIFConsole.Loaded path] ++ [LDIFConsole.NoneDetected]).
    split; [done|]. split; [by repeat constructor|].
    unfold LDIFConsole.load_ldif, LDIFConsole.read_file. rewrite Htr.
    cbn [negb from_option id]. rewrite Hfile. cbv zeta. by rewrite Hd.
  - destruct (detected_gives_group_entries content _ _ _ (a :: l) Hd)
      as (g & gs & Hgs); [done|].
    destruct (member_examples_return (LDIFConsole.membership_attributes self)
                (enumerate (LDIFConsole.members g))
                (([LDIFConsole.Loaded path] ++
                  [LDIFConsole.FoundGroups (length (g :: gs))]) ++
                 [LDIFConsole.ExampleGroup; LDIFConsole.GroupName (LDIFConsole.dn g);
                  LDIFConsole.MembersCount (length (LDIFConsole.members g))]) Hattrs)
      as (examples & Hloop & Hex).
    eexists. split; [done|]. split; cycle 1.
    + unfold LDIFConsole.load_ldif, LDIFConsole.read_file. rewrite Htr.
      cbn [negb from_option id]. rewrite Hfile. cbv zeta. rewrite Hd.
      unfold LDIFConsole.get_group_entries.
      cbn [LDIFConsole.ldif_content LDIFConsole.membership_attributes].
      rewrite Hgs, Hloop. reflexivity.
    + repeat (apply Forall_app; split); try done; by repeat constructor.
Qed.

Lemma lower_y_iff (s : string) : lower s = "y" ↔ s = "y" ∨ s = "Y".
Proof.
  split.
  - destruct s as [|c [|c' s]]; [done| |done]. simpl. intros [= Hc].
    destruct c as [[] [] [] [] [] [] [] []]; vm_compute in Hc;
      try discriminate Hc; auto.
  - by intros [-> | ->].
Qed.

Lemma split_on_elem_of_suffix {A : Type} (x : A) (l : list A) :
  ∃ used, x :: l = used ++ l.
Proof. by exists [x]. Qed.

(** What the request for the attributes keeps. *)
Lemma load_ldif_enter_invariants (self : LDIFConsole.console)
  (printed : list LDIFConsole.load_message) (inputs : list string) :
  Forall not_error printed →
  ∃ self' printed' inputs',
    LDIFConsole.load_ldif_enter self printed inputs = (self', printed', inputs') ∧
    LDIFConsole.nodes self' = LDIFConsole.nodes self ∧
    LDIFConsole.edges self' = LDIFConsole.edges self ∧
    (LDIFConsole.membership_attributes self ≠ [] →
     LDIFConsole.membership_attributes self' ≠ []) ∧
    (∃ used, inputs = used ++ inputs') ∧
    (∀ e, LDIFConsole.ErrorOccurred e ∈ printed' →
          e = LDIFConsole.EOFError ∧ inputs' = []).
Proof.
  intros Hp. rewrite load_ldif_enter_cases.
  destruct inputs as [|text inputs].
  - eexists _, _, _. split_and!; [done|done|done|done|by exists []|].
    intros e [Hin|Hin]%elem_of_app.
    + by destruct (proj1 (Forall_forall _ _) Hp _ Hin e).
    + apply elem_of_cons in Hin as [?|Hin]; [done|].
      apply list_elem_of_singleton in Hin. by injection Hin as ->.
  - eexists _, _, _. split_and!; [done|done|done| |apply split_on_elem_of_suffix|].
    + intros _. apply split_on_nonempty.
    + intros e [[Hin|Hin]%elem_of_app|Hin]%elem_of_app.
      * by destruct (proj1 (Forall_forall _ _) Hp _ Hin e).
      * by apply list_elem_of_singleton in Hin.
      * apply elem_of_cons in Hin as [?|Hin]; [done|].
        by apply list_elem_of_singleton in Hin.
Qed.

(** [load_ldif] on a path that cannot be opened and read: the console
    and the inputs are left as they are, and the exception is reported,
    as a missing file when it is [FileNotFoundError]. *)
Lemma load_ldif_unreadable (self : LDIFConsole.console) (path : string)
  (files : gmap string string) (unreadable : gmap string LDIFConsole.exception)
  (inputs : list string) :
  path ≠ "" →
  files !! path = None →
  ∃ printed,
    LDIFConsole.load_ldif self (Some path) files unreadable inputs =
    (self, printed, inputs) ∧
    (printed = [LDIFConsole.FileDoesNotExist path] ∨
     ∃ e, printed = [LDIFConsole.ErrorOccurred e] ∧ unreadable !! path = Some e ∧
          e ≠ LDIFConsole.FileNotFoundError).
Proof.
  intros Hpath Hfile.
  assert (truthy (Some path) = true) as Htr by (by destruct path).
  unfold LDIFConsole.load_ldif, LDIFConsole.read_file. rewrite Htr.
  cbn [negb from_option id]. rewrite Hfile.
  destruct (unreadable !! path) as [e|]; cbn [from_option id].
  - destruct e; eexists; (split; [reflexivity|]);
      try (by left); right; eexists; split_and!; done.
  - eexists. split; [reflexivity|]. by left.
Qed.

(** [load_ldif] leaves at least one attribute and reads a prefix of the
    inputs. *)
Lemma load_ldif_attributes_inputs (self : LDIFConsole.console)
  (file_path : option string) (files : gmap string string)
  (unreadable : gmap string LDIFConsole.exception) (inputs : list string) :
  LDIFConsole.membership_attributes self ≠ [] →
  ∃ self' printed inputs' used,
    LDIFConsole.load_ldif self file_path files unreadable inputs =
    (self', printed, inputs') ∧
    LDIFConsole.membership_attributes self' ≠ [] ∧
    inputs = used ++ inputs'.
Proof.
  intros Hattrs.
  destruct (truthy file_path) eqn:Htr.
  2:{ unfold LDIFConsole.load_ldif. rewrite Htr. simpl. by eexists _, _, _, []. }
  destruct file_path as [path|]; [|done].
  assert (path ≠ "") as Hpath by (by intros ->).
  destruct (files !! path) as [content|] eqn:Hfile.
  2:{ destruct (load_ldif_unreadable self path files unreadable inputs Hpath Hfile)
        as (printed & -> & _).
      by eexists _, _, _, []. }
  destruct (load_ldif_opened self path content files unreadable inputs Hpath Hfile Hattrs)
    as (detected & printed & _ & Hp & ->). cbv zeta.
  pose proof (load_ldif_enter_invariants
                (LDIFConsole.Console (Some content)
                   (LDIFConsole.membership_attributes self)
                   (LDIFConsole.nodes self) (LDIFConsole.edges self))
                printed) as Henter.
  destruct detected as [|a l].
  { destruct (Henter inputs Hp) as (self' & printed' & inputs' & -> & _ & _ & Ha & [used ->] & _).
    exists self', printed', inputs', used. split_and!; [done|by apply Ha|done]. }
  destruct inputs as [|answer inputs]; [by eexists _, _, _, []|].
  destruct (bool_decide (lower (strip answer) = "y")); [by eexists _, _, _, [answer]|].
  destruct (Henter inputs Hp) as (self' & printed' & inputs' & -> & _ & _ & Ha & [used ->] & _).
  exists self', printed', inputs', (answer :: used). split_and!; [done|by apply Ha|done].
Qed.

(** X: whatever the files, the path and the answers, [load_ldif] from a
    console with at least one attribute leaves the nodes and edges of
    the last parse as they are and leaves at least one attribute; it
    consumes a prefix of the inputs; and the only exceptions it ever
    reports are the end of the input and the exception, other than
    [FileNotFoundError], that opening or reading the file raised, in
    which case the console and the inputs are as before:
    [member_lines] is never read unbound and no index is out of
    range. *)
Theorem load_ldif_keeps (self : LDIFConsole.console) (file_path : option string)
  (files : gmap string string) (unreadable : gmap string LDIFConsole.exception)
  (inputs : list string) :
  LDIFConsole.membership_attributes self ≠ [] →
  ∃ self' printed inputs',
    LDIFConsole.load_ldif self file_path files unreadable inputs =
    (self', printed, inputs') ∧
    LDIFConsole.nodes self' = LDIFConsole.nodes self ∧
    LDIFConsole.edges self' = LDIFConsole.edges self ∧
    LDIFConsole.membership_attributes self' ≠ [] ∧
    (∃ used, inputs = used ++ inputs') ∧
    (∀ e, LDIFConsole.ErrorOccurred e ∈ printed →
          (e = LDIFConsole.EOFError ∧ inputs' = []) ∨
          (∃ path, file_path = Some path ∧ files !! path = None ∧
                   unreadable !! path = Some e ∧ e ≠ LDIFConsole.FileNotFoundError ∧
                   self' = self ∧ inputs' = inputs)).
Proof.
  intros Hattrs.
  destruct (truthy file_path) eqn:Htr.
  2:{ unfold LDIFConsole.load_ldif. rewrite Htr. simpl.
      eexists _, _, _. split_and!; [done|done|done|done|by exists []|].
      intros e Hin. apply elem_of_cons in Hin as [?|Hin]; [done|].
      by apply list_elem_of_singleton in Hin. }
  destruct file_path as [path|]; [|done].
  assert (path ≠ "") as Hpath by (by intros ->).
  destruct (files !! path) as [content|] eqn:Hfile.
  2:{ destruct (load_ldif_unreadable self path files unreadable inputs Hpath Hfile)
        as (printed & -> & Hprinted).
      eexists _, _, _. split_and!; [done|done|done|done|by exists []|].
      intros e Hin. right. exists path.
      destruct Hprinted as [->|(e' & -> & Hu & Hne)].
      - by apply list_elem_of_singleton in Hin.
      - apply list_elem_of_singleton in Hin. by injection Hin as ->. }
  destruct (load_ldif_opened self path content files unreadable inputs Hpath Hfile Hattrs)
    as (detected & printed & Hd & Hp & ->). cbv zeta.
  pose proof (load_ldif_enter_invariants
                (LDIFConsole.Console (Some content)
                   (LDIFConsole.membership_attributes self)
                   (LDIFConsole.nodes self) (LDIFConsole.edges self))
                printed) as Henter.
  destruct detected as [|a l].
  { destruct (Henter inputs Hp)
      as (self' & printed' & inputs' & -> & Hn & He & Ha & Hused & Herr).
    exists self', printed', inputs'. split_and!; try done; [by apply Ha|].
    intros e Hin. left. by apply Herr. }
  destruct inputs as [|answer inputs].
  - eexists _, _, _. split_and!; [done|done|done|done|by exists []|].
    intros e [Hin|Hin]%elem_of_app.
    + by destruct (proj1 (Forall_forall _ _) Hp _ Hin e).
    + apply list_elem_of_singleton in Hin. injection Hin as ->. by left.
  - destruct (bool_decide (lower (strip answer) = "y")).
    + eexists _, _, _. split_and!; [done|done|done|done|
                                     apply split_on_elem_of_suffix|].
      intros e [Hin|Hin]%elem_of_app.
      * by destruct (proj1 (Forall_forall _ _) Hp _ Hin e).
      * apply elem_of_cons in Hin as [?|Hin]; [done|].
        by apply list_elem_of_singleton in Hin.
    + destruct (Henter inputs Hp)
        as (self' & printed' & inputs' & -> & Hn & He & Ha & [used ->] & Herr).
      exists self', printed', inputs'. split_and!; try done; [by apply Ha| |].
      * by exists (answer :: used).
      * intros e Hin. left. by apply Herr.
Qed.

Lemma load_ldif_keeps_witness :
  ∃ self' printed inputs',
    LDIFConsole.load_ldif
      (LDIFConsole.Console None ["member"]
         [(Some "uid=old,dc=x", "old", "User")]
         [("uid=old,dc=x", Some "cn=g,dc=x", "memberOf")])
      (Some "new.ldif")
      {[ "new.ldif" := unlines ["dn: cn=h,dc=x"; "uniqueMember: uid=new,dc=x"] ]}
      {[ "groups" := LDIFConsole.OtherException "IsADirectoryError" ]}
      ["Y"] = (self', printed, inputs') ∧
    LDIFConsole.nodes self' = [(Some "uid=old,dc=x", "old", "User")] ∧
    LDIFConsole.membership_attributes self' ≠ [].
Proof.
  destruct (load_ldif_keeps
              (LDIFConsole.Console None ["member"]
                 [(Some "uid=old,dc=x", "old", "User")]
                 [("uid=old,dc=x", Some "cn=g,dc=x", "memberOf")])
              (Some "new.ldif")
              {[ "new.ldif" := unlines ["dn: cn=h,dc=x"; "uniqueMember: uid=new,dc=x"] ]}
              {[ "groups" := LDIFConsole.OtherException "IsADirectoryError" ]}
              ["Y"])
    as (self' & printed & inputs' & Heq & Hn & _ & Ha & _); [discriminate|].
  exists self', printed, inputs'. split_and!; [exact Heq|exact Hn|exact Ha].
Defined.

(** X: what [load_ldif] stores, on a file that can be opened.  When
    something is detected and the answer, trimmed, is [y] or [Y], the
    detected attributes are stored and one input is consumed; with
    another answer, or when nothing is detected, the fields of the next
    input, trimmed as a whole and split at the commas, are stored.  The
    document is stored in each case and the load ends ready. *)
Theorem load_ldif_chooses_attributes (self : LDIFConsole.console)
  (path content : string) (files : gmap string string)
  (unreadable : gmap string LDIFConsole.exception) (detected : list string) :
  path ≠ "" →
  files !! path = Some content →
  LDIFConsole.membership_attributes self ≠ [] →
  LDIFConsole.detect_membership_attributes
    (LDIFConsole.Console (Some content) (LDIFConsole.membership_attributes self)
       (LDIFConsole.nodes self) (LDIFConsole.edges self)) = Ok detected →
  (∀ answer rest,
     detected ≠ [] → strip answer = "y" ∨ strip answer = "Y" →
     ∃ printed,
       LDIFConsole.load_ldif self (Some path) files unreadable (answer :: rest) =
       (LDIFConsole.Console (Some content) detected
          (LDIFConsole.nodes self) (LDIFConsole.edges self),
        printed ++ [LDIFConsole.Using detected; LDIFConsole.Ready], rest)) ∧
  (∀ answer text rest,
     detected ≠ [] → strip answer ≠ "y" → strip answer ≠ "Y" →
     ∃ printed,
       LDIFConsole.load_ldif self (Some path) files unreadable (answer :: text :: rest) =
       (LDIFConsole.Console (Some content) (split_on ","%char (strip text))
          (LDIFConsole.nodes self) (LDIFConsole.edges self),
        printed ++ [LDIFConsole.Using (split_on ","%char (strip text)); LDIFConsole.Ready],
        rest)) ∧
  (∀ text rest,
     detected = [] →
     ∃ printed,
       LDIFConsole.load_ldif self (Some path) files unreadable (text :: rest) =
       (LDIFConsole.Console (Some content) (split_on ","%char (strip text))
          (LDIFConsole.nodes self) (LDIFConsole.edges self),
        printed ++ [LDIFConsole.Using (split_on ","%char (strip text)); LDIFConsole.Ready],
        rest)).
Proof.
  intros Hpath Hfile Hattrs Hd. split_and!.
  - intros answer rest Hne Hy.
    destruct (load_ldif_opened self path content files unreadable (answer :: rest)
                Hpath Hfile Hattrs) as (detected' & printed & Hd' & _ & ->).
    rewrite Hd in Hd'. injection Hd' as <-. cbv zeta.
    destruct detected as [|a l]; [done|].
    rewrite bool_decide_eq_true_2 by (by apply lower_y_iff).
    by exists printed.
  - intros answer text rest Hne Hy1 Hy2.
    destruct (load_ldif_opened self path content files unreadable
                (answer :: text :: rest)
                Hpath Hfile Hattrs) as (detected' & printed & Hd' & _ & ->).
    rewrite Hd in Hd'. injection Hd' as <-. cbv zeta.
    destruct detected as [|a l]; [done|].
    rewrite bool_decide_eq_false_2 by (intros [?|?]%lower_y_iff; done).
    rewrite load_ldif_enter_cases. by exists (printed ++ [LDIFConsole.AskEnter]).
  - intros text rest ->.
    destruct (load_ldif_opened self path content files unreadable (text :: rest)
                Hpath Hfile Hattrs) as (detected' & printed & Hd' & _ & ->).
    rewrite Hd in Hd'. injection Hd' as <-. cbv zeta.
    rewrite load_ldif_enter_cases. by exists (printed ++ [LDIFConsole.AskEnter]).
Qed.

Lemma load_ldif_chooses_attributes_witness :
  ∃ printed,
    LDIFConsole.load_ldif LDIFConsole.init (Some "groups.ldif")
      {[ "groups.ldif" := unlines ["dn: cn=h,dc=x"; "uniqueMember: uid=new,dc=x"] ]} ∅
      [" n"; " uniqueMember, member "; "parse"] =
    (LDIFConsole.Console
       (Some (unlines ["dn: cn=h,dc=x"; "uniqueMember: uid=new,dc=x"]))
       ["uniqueMember"; " member"] [] [],
     printed ++ [LDIFConsole.Using ["uniqueMember"; " member"]; LDIFConsole.Ready],
     ["parse"]).
Proof.
  destruct (load_ldif_chooses_attributes LDIFConsole.init "groups.ldif"
              (unlines ["dn: cn=h,dc=x"; "uniqueMember: uid=new,dc=x"])
              {[ "groups.ldif" := unlines ["dn: cn=h,dc=x"; "uniqueMember: uid=new,dc=x"] ]}
              ∅ ["uniqueMember"]) as (_ & Hno & _).
  - discriminate.
  - reflexivity.
  - discriminate.
  - vm_compute. reflexivity.
  - destruct (Hno " n" " uniqueMember, member " ["parse"]) as (printed & Heq).
    + discriminate.
    + discriminate.
    + discriminate.
    + exists printed. exact Heq.
Defined.

(** ** Parsing with the detected attributes *)

Lemma startswith_attr_iff (line a : string) :
  colon_free a = true →
  startswith line (a +:+ ":") = true ↔
  str_in ":" line = true ∧ (partition_colon line).1 = a.
Proof.
  intros Ha. rewrite attribute_name_iff, startswith_iff. split.
  - intros [r ->]. exists r. by rewrite str_app_assoc.
  - intros (r & -> & _). exists r. by rewrite str_app_assoc.
Qed.

(** Among names without a colon only the attribute name of the line
    can contribute an edge, so a list without repetition contributes
    what that name contributes, if it is in the list. *)
Lemma member_edges_by_name (u : gmap string string) (d : option string)
  (line : string) (attrs : list string) :
  NoDup attrs →
  Forall (fun a => colon_free a = true) attrs →
  member_edges u d line attrs =
  if bool_decide ((partition_colon line).1 ∈ attrs)
  then member_edge u d line (partition_colon line).1
  else [].
Proof.
  intros Hnd Hfree. unfold member_edges.
  induction Hnd as [|a attrs Hnotin Hnd IH]; [done|].
  apply Forall_cons in Hfree as [Ha Hfree]. simpl. rewrite (IH Hfree).
  destruct (decide ((partition_colon line).1 = a)) as [<-|Hne].
  - rewrite (bool_decide_eq_false_2 _ Hnotin), app_nil_r.
    by rewrite bool_decide_eq_true_2 by apply list_elem_of_here.
  - assert (member_edge u d line a = []) as ->.
    { unfold member_edge.
      destruct (startswith line (a +:+ ":")) eqn:Hs; [|done].
      apply startswith_attr_iff in Hs as [_ Hs]; done. }
    simpl.
    assert (bool_decide ((partition_colon line).1 ∈ a :: attrs) =
            bool_decide ((partition_colon line).1 ∈ attrs)) as ->; [|done].
    apply bool_decide_ext. rewrite elem_of_cons. split; [|by right].
    by intros [?|?].
Qed.

Lemma parse_lines_same_member_edges (attrs1 attrs2 lines : list string) (st : locals) :
  (∀ raw d, raw ∈ lines →
     member_edges (uid_to_dn st) d (strip raw) attrs1 =
     member_edges (uid_to_dn st) d (strip raw) attrs2) →
  parse_lines attrs1 st lines = parse_lines attrs2 st lines.
Proof.
  revert st. induction lines as [|raw lines IH]; intros st H; [done|].
  rewrite !parse_lines_cons, !line_body_effect, !bind_Ok.
  unfold line_edges. rewrite (H raw) by apply list_elem_of_here.
  apply IH. simpl. intros raw' d Hin. apply H. by apply list_elem_of_further.
Qed.

Lemma common_attributes_colon_free :
  NoDup LDIFConsole.common_attributes ∧
  Forall (fun a => colon_free a = true) LDIFConsole.common_attributes.
Proof.
  split; [|by repeat constructor].
  unfold LDIFConsole.common_attributes.
  repeat (constructor; [intros Hin;
    repeat (apply elem_of_cons in Hin as [Hin|Hin]; [discriminate Hin|]);
    by apply elem_of_nil in Hin|]).
  constructor.
Qed.

(** X: detection loses nothing: parsing a document with the attributes
    detected in it gives the result of parsing it with the whole
    vocabulary of five names. *)
Theorem parse_ldif_with_detected_attributes (content : string)
  (attrs : list string) (ns : list node) (es : list edge) :
  ∃ detected,
    LDIFConsole.detect_membership_attributes
      (LDIFConsole.Console (Some content) attrs ns es) = Ok detected ∧
    parse_ldif content detected = parse_ldif content LDIFConsole.common_attributes.
Proof.
  destruct (detect_membership_attributes_elem content attrs ns es)
    as (detected & Hd & Hnd & Hiff).
  exists detected. split; [done|].
  unfold parse_ldif. rewrite (parse_lines_same_member_edges detected
    LDIFConsole.common_attributes); [done|].
  intros raw d Hin.
  destruct common_attributes_colon_free as [Hnd' Hfree'].
  rewrite !member_edges_by_name; try done.
  2:{ apply Forall_forall. intros a (Hc & _)%Hiff.
      by apply (proj1 (Forall_forall _ _) Hfree'). }
  destruct (str_in ":" (strip raw)) eqn:Hcolon.
  - assert (bool_decide ((partition_colon (strip raw)).1 ∈ detected) =
            bool_decide ((partition_colon (strip raw)).1 ∈ LDIFConsole.common_attributes))
      as ->; [|done].
    apply bool_decide_ext. rewrite Hiff. split; [by intros [? _]|].
    intros Hc. split; [done|].
    destruct (proj1 (attribute_name_iff (strip raw) _) (conj Hcolon eq_refl))
      as (rest & Hraw & _).
    by exists raw, rest.
  - assert (member_edge (uid_to_dn parse_ldif_init) d (strip raw)
              (partition_colon (strip raw)).1 = []) as ->.
    { unfold member_edge.
      destruct (startswith (strip raw) _) eqn:Hs; [|done].
      apply startswith_has_colon in Hs. congruence. }
    by repeat destruct (bool_decide _).
Qed.

(** ** [run] *)

Lemma view_group_raises_cases (self : LDIFConsole.console) (group_dn : string) (e : exn) :
  LDIFConsole.view_group self group_dn = Raise e →
  e = IndexError ∧
  ∃ content first rest, LDIFConsole.ldif_content self = Some content ∧
    splitlines content = first :: rest ∧ str_in ":" (strip first) = false.
Proof.
  destruct e. intros H. split; [done|].
  destruct (truthy (LDIFConsole.ldif_content self)) eqn:Htr.
  - rewrite (view_group_loaded _ _ Htr) in H.
    destruct (LDIFConsole.ldif_content self) as [content|]; [|done]. simpl in H.
    destruct (splitlines content) as [|first rest] eqn:Hl; [done|].
    exists content, first, rest. split_and!; [done|done|].
    rewrite view_group_from_cons in H.
    destruct (str_in ":" (strip first)) eqn:Hc; [|done]. exfalso.
    destruct (view_group_from_returns group_dn _ [] rest Hc) as (out & Hout).
    destruct (startswith (strip first) "dn:"); simpl in H; congruence.
  - unfold LDIFConsole.view_group in H. by rewrite Htr in H.
Qed.

Lemma parse_returns (self : LDIFConsole.console) :
  ∃ ns es m,
    LDIFConsole.parse self =
    Ok (LDIFConsole.Console (LDIFConsole.ldif_content self)
          (LDIFConsole.membership_attributes self) ns es, m).
Proof.
  destruct (truthy (LDIFConsole.ldif_content self)) eqn:Htr.
  - destruct (parse_loaded self Htr) as (ns & es & _ & ->). by eexists _, _, _.
  - unfold LDIFConsole.parse. rewrite Htr. simpl.
    exists (LDIFConsole.nodes self), (LDIFConsole.edges self). eexists.
    by destruct self.
Qed.

Lemma export_raises_cases (self : LDIFConsole.console) (nodes_file edges_file : string)
  (unwritable : gmap string LDIFConsole.write_failure) (files files' : gmap string string)
  (e : LDIFConsole.exception) :
  LDIFConsole.export self nodes_file edges_file unwritable files = (files', inl e) →
  export_raised unwritable e self.
Proof.
  unfold LDIFConsole.export, export_raised.
  destruct (bool_decide_reflect (LDIFConsole.nodes self = [])) as [|Hn]; [done|].
  destruct (bool_decide_reflect (LDIFConsole.edges self = [])) as [|He]; [done|].
  cbn [orb]. unfold LDIFConsole.write_file.
  destruct (unwritable !! nodes_file) as [f|] eqn:Hnf.
  { intros H. split_and!; [done|done|]. exists nodes_file, f. split; [done|].
    destruct f; by injection H as _ <-. }
  destruct (unwritable !! edges_file) as [f|] eqn:Hef; [|done].
  intros H. split_and!; [done|done|]. exists edges_file, f. split; [done|].
  destruct f; by injection H as _ <-.
Qed.

Lemma run_body_ok (unreadable : gmap string LDIFConsole.exception)
  (unwritable : gmap string LDIFConsole.write_failure) (w : LDIFConsole.world) :
  LDIFConsole.membership_attributes (LDIFConsole.console_of w) ≠ [] →
  pass_ok unwritable w (LDIFConsole.run_body unreadable unwritable w).
Proof.
  intros Hattrs. unfold LDIFConsole.run_body.
  destruct (LDIFConsole.inputs_of w) as [|typed inputs] eqn:Hin.
  { simpl. rewrite Hin. split; [done|]. by left. }
  cbv zeta.
  destruct (negb (truthy (Some (strip typed)))); [simpl; rewrite Hin; simpl; split; [done|lia]|].
  destruct (bool_decide (_ = "help")); [simpl; rewrite Hin; simpl; split; [done|lia]|].
  destruct (bool_decide (_ = "load")).
  { destruct (load_ldif_attributes_inputs (LDIFConsole.console_of w)
                (if bool_decide (1 < length (split_on_1 " " (strip typed)))
                 then split_on_1 " " (strip typed) !! 1 else None)
                (LDIFConsole.files_of w) unreadable inputs Hattrs)
      as (self' & printed & inputs' & used & -> & Ha & ->).
    simpl. rewrite Hin. simpl. split; [done|]. rewrite length_app. lia. }
  destruct (bool_decide (_ = "set_attrs")).
  { unfold LDIFConsole.set_membership_attributes.
    destruct (negb (truthy _)); simpl; rewrite Hin; simpl; (split; [|lia]); [done|].
    apply split_on_nonempty. }
  destruct (bool_decide (_ = "parse")).
  { destruct (parse_returns (LDIFConsole.console_of w)) as (ns & es & m & ->).
    simpl. rewrite Hin. simpl. split; [done|lia]. }
  destruct (bool_decide (_ = "view_nodes")); [simpl; rewrite Hin; simpl; split; [done|lia]|].
  destruct (bool_decide (_ = "view_edges")); [simpl; rewrite Hin; simpl; split; [done|lia]|].
  destruct (bool_decide (_ = "view_group")).
  { destruct (truthy _); [|simpl; rewrite Hin; simpl; split; [done|lia]].
    destruct (LDIFConsole.view_group _ _) as [o|e] eqn:Hv.
    - simpl. rewrite Hin. simpl. split; [done|lia].
    - apply view_group_raises_cases in Hv as [-> Hv]. simpl. split; [done|].
      right. by left. }
  destruct (bool_decide (_ = "export")).
  { destruct (truthy _).
    - destruct (split_whitespace _) as [|f1 [|f2 [|f3 fs]]];
        try (simpl; rewrite Hin; simpl; split; [done|lia]).
      destruct (LDIFConsole.export _ _ _ _ _) as [files' [e|m]] eqn:Hexp.
      + apply export_raises_cases in Hexp. simpl. split; [done|]. by do 2 right.
      + simpl. rewrite Hin. simpl. split; [done|lia].
    - destruct (LDIFConsole.export _ _ _ _ _) as [files' [e|m]] eqn:Hexp.
      + apply export_raises_cases in Hexp. simpl. split; [done|]. by do 2 right.
      + simpl. rewrite Hin. simpl. split; [done|lia]. }
  destruct (bool_decide (_ = "exit")); [done|].
  simpl. rewrite Hin. simpl. split; [done|lia].
Qed.

Lemma run_loop_ok (unreadable : gmap string LDIFConsole.exception)
  (unwritable : gmap string LDIFConsole.write_failure)
  (passes : nat) (w : LDIFConsole.world) :
  LDIFConsole.membership_attributes (LDIFConsole.console_of w) ≠ [] →
  length (LDIFConsole.inputs_of w) < passes →
  ∃ p w0, LDIFConsole.run_loop unreadable unwritable passes w = Some p ∧
    pass_ok unwritable w0 p ∧
    ∀ w', p ≠ LDIFConsole.Continue w'.
Proof.
  revert w. induction passes as [|passes IH]; intros w Hattrs Hlen; [lia|].
  simpl. pose proof (run_body_ok unreadable unwritable w Hattrs) as Hok.
  destruct (LDIFConsole.run_body unreadable unwritable w) as [w'|w'|e w'].
  - destruct Hok as [Ha Hl]. apply IH; [done|lia].
  - by exists (LDIFConsole.Break w'), w.
  - by exists (LDIFConsole.Uncaught e w'), w.
Qed.

(** X: a session always ends, whatever the files and the inputs: [run]
    on the fresh console leaves the loop by [exit], or with the end of
    the input, or with the [IndexError] of [view_group] on a loaded
    document whose first line has no colon, or with the exception of a
    file that [export], with nodes and edges to write, could not open
    or write; no other exception escapes, and the console has at least
    one attribute at the end. *)
Theorem run_ends (files : gmap string string)
  (unreadable : gmap string LDIFConsole.exception)
  (unwritable : gmap string LDIFConsole.write_failure) (inputs : list string) :
  ∃ p, LDIFConsole.run LDIFConsole.init files unreadable unwritable inputs = Some p ∧
    match p with
    | LDIFConsole.Continue _ => False
    | LDIFConsole.Break w =>
        LDIFConsole.membership_attributes (LDIFConsole.console_of w) ≠ []
    | LDIFConsole.Uncaught e w =>
        LDIFConsole.membership_attributes (LDIFConsole.console_of w) ≠ [] ∧
        ((e = LDIFConsole.EOFError ∧ LDIFConsole.inputs_of w = []) ∨
         (e = LDIFConsole.Builtin IndexError ∧
          ∃ content first rest,
            LDIFConsole.ldif_content (LDIFConsole.console_of w) = Some content ∧
            splitlines content = first :: rest ∧ str_in ":" (strip first) = false) ∨
         (LDIFConsole.nodes (LDIFConsole.console_of w) ≠ [] ∧
          LDIFConsole.edges (LDIFConsole.console_of w) ≠ [] ∧
          ∃ path f, unwritable !! path = Some f ∧ e = LDIFConsole.failure_of f))
    end.
Proof.
  destruct (run_loop_ok unreadable unwritable (S (length inputs))
              (LDIFConsole.World LDIFConsole.init files inputs [LDIFConsole.Banner]))
    as (p & w0 & Hrun & Hok & Hne); [done|simpl; lia|].
  exists p. split; [done|]. destruct p as [w'|w'|e w']; [by destruct (Hne w')|done|done].
Qed.

(** ** The values in the result *)

Lemma governing_dn_of_document (pre : list string) :
  dn_of_document pre (governing_dn pre).
Proof.
  unfold governing_dn.
  assert (∀ above, (∀ l, l ∈ above → l ∈ pre) → dn_of_document pre (dn_above above))
    as H.
  { induction above as [|l above IH]; intros Hsub; [by left|]. simpl.
    destruct (startswith (strip l) "dn:") eqn:Hdn.
    - right. exists l. split_and!; [apply Hsub, list_elem_of_here|done|done].
    - apply IH. intros l' Hl'. by apply Hsub, list_elem_of_further. }
  apply H. intros l Hl. by apply list_elem_of_In, in_rev, list_elem_of_In.
Qed.

(** X: the result holds no invented value: the dn of every node and
    the target of every edge is null or the trimmed value of a [dn:]
    line of the document; the type of a node is "User" or "Group"; the
    source of an edge is not empty and its relation is "memberOf". *)
Theorem parse_ldif_values (content : string) (attrs : list string) :
  ∃ ns es, parse_ldif content attrs = Ok (ns, es) ∧
    (∀ n, n ∈ ns →
       dn_of_document (splitlines content) n.1.1 ∧ (n.2 = "User" ∨ n.2 = "Group")) ∧
    (∀ e, e ∈ es →
       dn_of_document (splitlines content) e.1.2 ∧ e.1.1 ≠ "" ∧ e.2 = "memberOf").
Proof.
  destruct (parse_ldif_nodes content attrs) as (ns & es & Hp & _ & Hn).
  destruct (parse_ldif_edges content attrs) as (ns' & es' & Hp' & He).
  rewrite Hp in Hp'. injection Hp' as <- <-.
  assert (∀ pre raw post, splitlines content = pre ++ raw :: post →
            dn_of_document (splitlines content) (governing_dn pre)) as Hdn.
  { intros pre raw post Hl.
    destruct (governing_dn_of_document pre) as [->|(l & Hin & Hl1 & ->)]; [by left|].
    right. exists l. split_and!; [|done|done]. rewrite Hl. apply elem_of_app. by left. }
  exists ns, es. split_and!; [done|..].
  - intros n (pre & raw & post & Hl & [(v & _ & _ & ->)|(v & _ & _ & ->)])%Hn;
      (split; [by apply (Hdn pre raw post)|]); [by left|by right].
  - intros e (pre & raw & post & attr & Hl & _ & _ & _ & _ & Hv & ->)%He.
    split_and!; [by apply (Hdn pre raw post)|done|done].
Qed.

Lemma parse_ldif_edges_in_group_entries_witness :
  ∃ gs g,
    LDIFConsole.get_group_entries_of
      (unlines [ "dn: cn=g,dc=x"; "cn: g"; "member: uid=a,dc=x" ]) ["member"] = Ok gs ∧
    g ∈ gs ∧ LDIFConsole.dn g = Some "cn=g,dc=x" ∧
    "uid=a,dc=x" ∈ LDIFConsole.members g.
Proof.
  destruct (parse_ldif_edges_in_group_entries
              (unlines [ "dn: cn=g,dc=x"; "cn: g"; "member: uid=a,dc=x" ]) ["member"])
    as (ns & es & gs & Hp & Hgs & Hcov).
  vm_compute in Hp. injection Hp as <- <-.
  destruct (Hcov ("uid=a,dc=x", Some "cn=g,dc=x", "memberOf"))
    as (g & Hg & Hd & Hm); [apply list_elem_of_here|].
  exists gs, g. split_and!; [exact Hgs|exact Hg|exact Hd|exact Hm].
Defined.

Lemma parse_ldif_values_witness :
  ∃ ns es,
    parse_ldif (unlines [ "dn: cn=g,dc=x"; "cn: g"; "member: uid=a,dc=x" ]) ["member"] =
    Ok (ns, es) ∧
    dn_of_document [ "dn: cn=g,dc=x"; "cn: g"; "member: uid=a,dc=x" ] (Some "cn=g,dc=x").
Proof.
  destruct (parse_ldif_values
              (unlines [ "dn: cn=g,dc=x"; "cn: g"; "member: uid=a,dc=x" ]) ["member"])
    as (ns & es & Hp & _ & He).
  exists ns, es. split; [exact Hp|].
  vm_compute in Hp. injection Hp as <- <-.
  destruct (He ("uid=a,dc=x", Some "cn=g,dc=x", "memberOf")) as (Hd & _);
    [apply list_elem_of_here|].
  exact Hd.
Defined.
(** ** File accesses that fail *)

(** [load] on a directory reports the exception and leaves the console
    and the inputs as they are; on a missing file it reports that the
    file does not exist. *)
Lemma load_ldif_directory :
  LDIFConsole.load_ldif LDIFConsole.init (Some "adir") ∅
    {[ "adir" := LDIFConsole.OtherException "IsADirectoryError" ]} ["y"] =
  (LDIFConsole.init,
   [LDIFConsole.ErrorOccurred (LDIFConsole.OtherException "IsADirectoryError")], ["y"]) ∧
  LDIFConsole.load_ldif LDIFConsole.init (Some "missing.ldif") ∅
    {[ "adir" := LDIFConsole.OtherException "IsADirectoryError" ]} ["y"] =
  (LDIFConsole.init, [LDIFConsole.FileDoesNotExist "missing.ldif"], ["y"]).
Proof. split; vm_compute; reflexivity. Qed.

(** A session that loads and parses a group and exports to a directory
    that does not exist ends with the [FileNotFoundError] of [open]:
    the command [exit] is not read and no file is written. *)
Lemma run_export_unwritable :
  ∃ w,
    LDIFConsole.run LDIFConsole.init
      {[ "g.ldif" := unlines [ "dn: cn=g,dc=x"; "objectClass: posixGroup"; "cn: g";
                               "member: uid=alice,dc=x" ] ]}
      ∅ {[ "nodir/n.csv" := LDIFConsole.OpenFails LDIFConsole.FileNotFoundError ]}
      [ "load g.ldif"; "y"; "parse"; "export nodir/n.csv e.csv"; "exit" ] =
    Some (LDIFConsole.Uncaught LDIFConsole.FileNotFoundError w) ∧
    LDIFConsole.inputs_of w = ["exit"] ∧
    LDIFConsole.files_of w !! "e.csv" = None ∧
    LDIFConsole.files_of w !! "nodir/n.csv" = None.
Proof. eexists. split; [vm_compute; reflexivity|]. split_and!; vm_compute; reflexivity. Qed.

(** When it is the edges file that cannot be opened, the nodes file has
    been written before the exception leaves [export]. *)
Lemma export_second_file_unwritable :
  ∃ files',
    LDIFConsole.export
      (LDIFConsole.Console None ["member"]
         [(Some "cn=g,dc=x", "g", "Group")]
         [("uid=alice,dc=x", Some "cn=g,dc=x", "memberOf")])
      "n.csv" "nodir/e.csv"
      {[ "nodir/e.csv" := LDIFConsole.OpenFails LDIFConsole.FileNotFoundError ]} ∅ =
    (files', inl LDIFConsole.FileNotFoundError) ∧
    files' !! "n.csv" = Some (LDIFConsole.nodes_table [(Some "cn=g,dc=x", "g", "Group")]) ∧
    files' !! "nodir/e.csv" = None.
Proof. eexists. split; [vm_compute; reflexivity|]. split; vm_compute; reflexivity. Qed.
